(** * Acoust: the packet codec, symbol detector and receiver state machine

    A shallow embedding of [src/App.jsx] (the MFSK-16 acoustic modem) and
    the properties of its packet framing and receive path.

    JavaScript numbers that the program only ever uses as integers (bytes,
    nibbles, lengths, counters) are [Z]; the 32-bit wrap-around of the
    bitwise operators is written out.  The clock of the receiver and the
    symbol duration it is compared with are IEEE binary64 numbers, as in
    the program: [float], with the machine's rounded [+], [-], [*] and
    its comparisons.  Spectral magnitudes, which the receiver only
    compares, are rationals, [Q].  The transmitter is written over the
    arithmetic of its numbers, which is instantiated with the program's
    doubles and with the rationals, the arithmetic without rounding. *)

From Stdlib Require Import ZArith QArith Qround List Bool Lia Lqa Floats.
Import ListNotations.

Local Open Scope Z_scope.

(* ================================================================== *)
(** ** JavaScript integer primitives *)
(* ================================================================== *)

Module JS.

(** [ToInt32]: reduction modulo 2^32 into the signed range. *)
Definition toInt32 (x : Z) : Z := (x + 2^31) mod 2^32 - 2^31.

(** [ToUint8]: what a store into a [Uint8Array] keeps. *)
Definition toUint8 (x : Z) : Z := x mod 256.

(** [a >> n] *)
Definition sar (a n : Z) : Z := Z.shiftr (toInt32 a) (n mod 32).

(** [a << n] *)
Definition shl (a n : Z) : Z := toInt32 (Z.shiftl (toInt32 a) (n mod 32)).

(** [a & b] *)
Definition band (a b : Z) : Z := toInt32 (Z.land (toInt32 a) (toInt32 b)).

(** [a | b] *)
Definition bor (a b : Z) : Z := toInt32 (Z.lor (toInt32 a) (toInt32 b)).

(** [a[i]] on an array of numbers.  Every read in the modelled code is
    guarded by a length test; the default stands for [undefined] and is
    never observed. *)
Definition idx (a : list Z) (i : nat) : Z := nth i a 0.

(** [a[i] = v] on a [Uint8Array]: the value is reduced to a byte, and a
    store past the end is ignored. *)
Fixpoint u8_store (a : list Z) (i : nat) (v : Z) : list Z :=
  match a, i with
  | [], _ => []
  | _ :: t, O => toUint8 v :: t
  | h :: t, S i' => h :: u8_store t i' v
  end.

(** [a.slice(start, end)] (ECMAScript: negative positions count from the
    end, positions are clamped to the array, an empty range gives the
    empty array). *)
Definition slice {A : Type} (a : list A) (start end_ : Z) : list A :=
  let len := Z.of_nat (length a) in
  let k := if start <? 0 then Z.max (len + start) 0 else Z.min start len in
  let fin := if end_ <? 0 then Z.max (len + end_) 0 else Z.min end_ len in
  firstn (Z.to_nat (Z.max (fin - k) 0)) (skipn (Z.to_nat k) a).

End JS.

(* ================================================================== *)
(** ** Packet helpers *)
(* ================================================================== *)

Module Packet.
Import JS.

Definition MAGIC : list Z := [0x41; 0x43; 0x53; 0x54].
Definition TYPE_TEXT : Z := 0x54.
Definition TYPE_IMAGE : Z := 0x49.
Definition HEADER_LEN : Z := 16.

(** The object [{ type, payloadLen, imgW, imgH }] returned by
    [parseHeader]. *)
Record Header : Type := mkHeader
  { type : Z; payloadLen : Z; imgW : Z; imgH : Z }.

(** [buildHeader(type, payloadLen, imgW = 0, imgH = 0)]: a zero-filled
    [Uint8Array(HEADER_LEN)] and thirteen stores. *)
Definition buildHeader (type payloadLen imgW imgH : Z) : list Z :=
  let h := repeat 0 (Z.to_nat HEADER_LEN) in
  let h := u8_store h 0 (idx MAGIC 0) in
  let h := u8_store h 1 (idx MAGIC 1) in
  let h := u8_store h 2 (idx MAGIC 2) in
  let h := u8_store h 3 (idx MAGIC 3) in
  let h := u8_store h 4 type in
  let h := u8_store h 5 (band (sar payloadLen 24) 0xff) in
  let h := u8_store h 6 (band (sar payloadLen 16) 0xff) in
  let h := u8_store h 7 (band (sar payloadLen 8) 0xff) in
  let h := u8_store h 8 (band payloadLen 0xff) in
  let h := u8_store h 9 (band (sar imgW 8) 0xff) in
  let h := u8_store h 10 (band imgW 0xff) in
  let h := u8_store h 11 (band (sar imgH 8) 0xff) in
  let h := u8_store h 12 (band imgH 0xff) in
  h.

(** [for (let i = 0; i < 4; i++) if (bytes[i] !== MAGIC[i]) return null] *)
Definition magic_mismatch (bytes : list Z) : bool :=
  existsb (fun i => negb (idx bytes i =? idx MAGIC i)) (seq 0 4).

(** [parseHeader(bytes)]; [None] is [null]. *)
Definition parseHeader (bytes : list Z) : option Header :=
  if Z.of_nat (length bytes) <? HEADER_LEN then None
  else if magic_mismatch bytes then None
  else
    Some {| type := idx bytes 4;
            payloadLen :=
              bor (bor (bor (shl (idx bytes 5) 24) (shl (idx bytes 6) 16))
                       (shl (idx bytes 7) 8))
                  (idx bytes 8);
            imgW := bor (shl (idx bytes 9) 8) (idx bytes 10);
            imgH := bor (shl (idx bytes 11) 8) (idx bytes 12) |}.

(** [bytesToNibbles(bytes)]: the [for .. of] loop pushes two entries per
    byte onto [out]. *)
Definition bytesToNibbles (bytes : list Z) : list Z :=
  fold_left (fun out b => out ++ [band (sar b 4) 0xf; band b 0xf]) bytes [].

(** The loop of [nibblesToBytes]:
    [for (let i = 0; i + 1 < nibbles.length; i += 2) out.push(..)].
    [fuel] bounds the number of iterations. *)
Fixpoint nibblesToBytes_loop (fuel : nat) (nibbles : list Z) (i : nat)
    (out : list Z) : list Z :=
  match fuel with
  | O => out
  | S fuel' =>
      if (i + 1 <? length nibbles)%nat then
        nibblesToBytes_loop fuel' nibbles (i + 2)
          (out ++ [bor (shl (band (idx nibbles i) 0xf) 4)
                       (band (idx nibbles (i + 1)) 0xf)])
      else out
  end.

(** [nibblesToBytes(nibbles)]: the loop, then [new Uint8Array(out)]. *)
Definition nibblesToBytes (nibbles : list Z) : list Z :=
  map toUint8 (nibblesToBytes_loop (length nibbles) nibbles 0 []).

End Packet.

(* ================================================================== *)
(** ** Symbol detector *)
(* ================================================================== *)

Module Detector.

Local Open Scope Q_scope.

(** [x > y] on magnitudes. *)
Definition Qgtb (x y : Q) : bool := negb (Qle_bool x y).

Definition PREAMBLE_FREQ : Q := 500.

(** The configuration refs ([symDurRef], [baseFreqRef], [spacingRef],
    [threshRef]) as read at the start of a tick.  The symbol duration is
    compared with differences of clock values and is a double like
    them. *)
Record Config : Type := mkConfig
  { symDur : float; baseFreq : Q; spacing : Q; thresh : Q }.

(** What the program reads from the audio front end: the byte spectrum
    of [analyser.getByteFrequencyData] (its length is
    [frequencyBinCount]) and [rxCtx.sampleRate]. *)
Record Analyser : Type := mkAnalyser
  { freqData : list Z; sampleRate : Q }.

(** The object [{ symbol, magnitude, mags }] returned by
    [detectSymbol]. *)
Record Detection : Type := mkDetection
  { symbol : Z; magnitude : Q; mags : list Q }.

(** [getFreqsLive()] *)
Definition getFreqsLive (cfg : Config) : list Q :=
  map (fun i => baseFreq cfg + inject_Z (Z.of_nat i) * spacing cfg)
      (seq 0 16).

(** [Math.round(x)] *)
Definition round (x : Q) : Z := Qfloor (x + (1 # 2)).

(** The averaging loop shared by [detectSymbol] and [getPreambleMag]:
    [for (j = max(0, bin - w); j <= min(buf.length - 1, bin + w); j++)
       s += buf[j]], then [s / (2 * w + 1) / 255], with [w = 5]. *)
Definition bandMagnitude (buf : list Z) (bin : Z) : Q :=
  let w := 5%Z in
  let lo := Z.max 0 (bin - w)%Z in
  let hi := Z.min (Z.of_nat (length buf) - 1)%Z (bin + w)%Z in
  let js := map (fun k => Z.to_nat (lo + Z.of_nat k)%Z)
                (seq 0 (Z.to_nat (hi - lo + 1)%Z)) in
  let s := fold_left (fun s j => (s + JS.idx buf j)%Z) js 0%Z in
  inject_Z s / inject_Z (2 * w + 1) / 255.

(** Width of one spectrum bin. *)
Definition binWidth (a : Analyser) : Q :=
  (sampleRate a / 2) / inject_Z (Z.of_nat (length (freqData a))).

(** One step of
    [mags.forEach((m, i) => { if (m > bestMag) { bestMag = m; bestSym = i } })]
    on the pair [(bestSym, bestMag)]. *)
Definition pickStep (best : Z * Q) (i : Z) (m : Q) : Z * Q :=
  if Qgtb m (snd best) then (i, m) else best.

Fixpoint pickLoop (ms : list Q) (i : Z) (best : Z * Q) : Z * Q :=
  match ms with
  | [] => best
  | m :: ms' => pickLoop ms' (i + 1)%Z (pickStep best i m)
  end.

(** [let bestSym = -1, bestMag = 0; mags.forEach(..)] and the returned
    object. *)
Definition pickBest (ms : list Q) : Detection :=
  let best := pickLoop ms 0%Z ((-1)%Z, 0) in
  {| symbol := fst best; magnitude := snd best; mags := ms |}.

(** [freqs.map(f => ..)]: the magnitude of each of the 16 tones. *)
Definition mags_of (cfg : Config) (an : Analyser) : list Q :=
  let bw := binWidth an in
  map (fun f => bandMagnitude (freqData an) (round (f / bw)))
      (getFreqsLive cfg).

(** [detectSymbol()]; [None] is [null], returned when the analyser or
    the audio context is missing. *)
Definition detectSymbol (cfg : Config) (a : option Analyser)
    : option Detection :=
  match a with
  | None => None
  | Some an => Some (pickBest (mags_of cfg an))
  end.

(** [getPreambleMag()] *)
Definition getPreambleMag (a : option Analyser) : Q :=
  match a with
  | None => 0
  | Some an =>
      bandMagnitude (freqData an) (round (PREAMBLE_FREQ / binWidth an))
  end.

End Detector.

(* ================================================================== *)
(** ** Receiver *)
(* ================================================================== *)

Module Receiver.
Import JS Packet Detector.

Local Open Scope Q_scope.

Definition PREAMBLE_SYMS : float := 4.

(** [!x] on a number: true for [0], [-0] and [NaN]. *)
Definition falsy (x : float) : bool := is_zero x || is_nan x.

(** [RX_IDLE = 0, RX_PREAMBLE = 1, RX_DATA = 2]; [RX_PREAMBLE] is the
    state in which the receiver waits for the computed data start. *)
Inductive RxState : Type := RX_IDLE | RX_PREAMBLE | RX_DATA.

(** The decode-state refs of the component. *)
Record Session : Type := mkSession
  { rxState : RxState;            (* rxStateRef *)
    rxNibbles : list Z;           (* rxNibblesRef *)
    sampleBuf : list (option Z);  (* sampleBufRef; [None] is [null] *)
    lastSymTime : float;          (* lastSymTimeRef *)
    preambleAt : float;           (* preambleAtRef *)
    preambleEndsAt : float;       (* preambleEndsAtRef *)
    silenceCount : Z;             (* silenceCountRef *)
    rxDataStart : float }.        (* rxDataStartRef *)

Definition set_rxState (v : RxState) (s : Session) : Session :=
  mkSession v (rxNibbles s) (sampleBuf s) (lastSymTime s) (preambleAt s)
            (preambleEndsAt s) (silenceCount s) (rxDataStart s).
Definition set_rxNibbles (v : list Z) (s : Session) : Session :=
  mkSession (rxState s) v (sampleBuf s) (lastSymTime s) (preambleAt s)
            (preambleEndsAt s) (silenceCount s) (rxDataStart s).
Definition set_sampleBuf (v : list (option Z)) (s : Session) : Session :=
  mkSession (rxState s) (rxNibbles s) v (lastSymTime s) (preambleAt s)
            (preambleEndsAt s) (silenceCount s) (rxDataStart s).
Definition set_lastSymTime (v : float) (s : Session) : Session :=
  mkSession (rxState s) (rxNibbles s) (sampleBuf s) v (preambleAt s)
            (preambleEndsAt s) (silenceCount s) (rxDataStart s).
Definition set_preambleAt (v : float) (s : Session) : Session :=
  mkSession (rxState s) (rxNibbles s) (sampleBuf s) (lastSymTime s) v
            (preambleEndsAt s) (silenceCount s) (rxDataStart s).
Definition set_preambleEndsAt (v : float) (s : Session) : Session :=
  mkSession (rxState s) (rxNibbles s) (sampleBuf s) (lastSymTime s)
            (preambleAt s) v (silenceCount s) (rxDataStart s).
Definition set_silenceCount (v : Z) (s : Session) : Session :=
  mkSession (rxState s) (rxNibbles s) (sampleBuf s) (lastSymTime s)
            (preambleAt s) (preambleEndsAt s) v (rxDataStart s).
Definition set_rxDataStart (v : float) (s : Session) : Session :=
  mkSession (rxState s) (rxNibbles s) (sampleBuf s) (lastSymTime s)
            (preambleAt s) (preambleEndsAt s) (silenceCount s) v.

(** *** What the receiver does to the outside *)

Inductive Cls : Type := warn | info | ok.

(** The status lines of [setRxStatus], by their fixed text and the
    values interpolated into it. *)
Inductive StatusMsg : Type :=
| MsgIncomplete (gotBytes : Z)
| MsgBadHeader
| MsgTextReceived (payload : list Z)
| MsgImageReceived (w h : Z) (payloadBytes : Z)
| MsgUnknownType (ty : Z)
| MsgTimeout
| MsgListening
| MsgPreambleDetected
| MsgReceivingData.

(** The calls a tick makes on the display and on the timer, in program
    order.  Text is carried as the payload bytes handed to
    [TextDecoder]; an image as the bytes put into the [Blob]. *)
Inductive Effect : Type :=
| SetRxStatus (cls : Cls) (msg : StatusMsg)
| SetRxOutputText (payload : list Z)
| SetRxOutputImage (w h : Z) (payloadBytes : Z)
| SetRxOutputHas
| SetRxImgSrcNull
| LoadImage (payload : list Z)
| SetRxImgProgReset
| SetRxImgProgHide
| SetRxImgProgShow (got total : Z)
| SetTimeoutListening (ms : Z)
| SetDebugMag (pre dom : Q) (state : RxState)
| SetSymCells (cells : list (bool * bool))
| SetDecodedBits (nb silence : Z).

(** A run of receiver code: the session it leaves and what it emitted. *)
Definition Step : Type := Session * list Effect.

Definition andThen (r : Step) (k : Session -> Step) : Step :=
  let (s, es) := r in
  let (s', es') := k s in
  (s', es ++ es').

Definition emit (es : list Effect) (s : Session) : Step := (s, es).

Notation "r ;; k" := (andThen r k) (at level 61, left associativity).

Definition len {A : Type} (l : list A) : Z := Z.of_nat (length l).

(** [resetRxState()] *)
Definition resetRxState (s : Session) : Step :=
  ({| rxState := RX_IDLE;
      rxNibbles := [];
      sampleBuf := [];
      lastSymTime := lastSymTime s;
      preambleAt := 0;
      preambleEndsAt := 0;
      silenceCount := 0;
      rxDataStart := 0 |},
   [SetRxImgProgReset]).

(** [rxNibblesRef.current.slice(0, Math.floor(length / 2) * 2)] *)
Definition trimNib (s : Session) : list Z :=
  slice (rxNibbles s) 0 (len (rxNibbles s) / 2 * 2)%Z.

(** [allBytes.slice(HEADER_LEN, HEADER_LEN + hdr.payloadLen)] *)
Definition payloadOf (allBytes : list Z) (hdr : Header) : list Z :=
  slice allBytes HEADER_LEN (HEADER_LEN + payloadLen hdr)%Z.

(** The dispatch on [hdr.type] in [finalizePacket]. *)
Definition deliver (hdr : Header) (payload : list Z) : list Effect :=
  if (type hdr =? TYPE_TEXT)%Z then
    [SetRxOutputText payload; SetRxOutputHas; SetRxImgSrcNull;
     SetRxStatus ok (MsgTextReceived payload)]
  else if (type hdr =? TYPE_IMAGE)%Z then
    [LoadImage payload; SetRxImgProgHide;
     SetRxOutputImage (imgW hdr) (imgH hdr) (len payload); SetRxOutputHas;
     SetRxStatus ok (MsgImageReceived (imgW hdr) (imgH hdr) (len payload))]
  else
    [SetRxStatus warn (MsgUnknownType (type hdr))].

(** [finalizePacket()] *)
Definition finalizePacket (s : Session) : Step :=
  let trimNib := trimNib s in
  if (len trimNib <? HEADER_LEN * 2)%Z then
    emit [SetRxStatus warn (MsgIncomplete (len trimNib / 2)%Z)] s
    ;; resetRxState
    ;; emit [SetTimeoutListening 3000]
  else
    let allBytes := nibblesToBytes trimNib in
    match parseHeader allBytes with
    | None =>
        emit [SetRxStatus warn MsgBadHeader] s ;; resetRxState
    | Some hdr =>
        let payload := payloadOf allBytes hdr in
        emit (deliver hdr payload) s
        ;; resetRxState
        ;; emit [SetTimeoutListening 3000]
    end.

(** [liveUpdateRxImage()]; [finalizePacketRef.current] holds
    [finalizePacket] once the component has rendered. *)
Definition liveUpdateRxImage (s : Session) : Step :=
  if (len (rxNibbles s) <? HEADER_LEN * 2)%Z then (s, [])
  else
    match parseHeader
            (nibblesToBytes (slice (rxNibbles s) 0 (HEADER_LEN * 2)%Z)) with
    | None => (s, [])
    | Some hdr =>
        if negb (type hdr =? TYPE_IMAGE)%Z then (s, [])
        else
          let totalNibbles := ((HEADER_LEN + payloadLen hdr) * 2)%Z in
          emit [SetRxImgProgShow (len (rxNibbles s)) totalNibbles] s
          ;; (fun s =>
                if (len (rxNibbles s) >=? totalNibbles)%Z
                then finalizePacket s else (s, []))
    end.

(** *** Majority vote over one symbol window *)

(** [sampleBuf.filter(x => x !== null)] *)
Fixpoint validSamples (buf : list (option Z)) : list Z :=
  match buf with
  | [] => []
  | Some x :: t => x :: validSamples t
  | None :: t => validSamples t
  end.

(** [counts[s]++] on an array of numbers.  For an index inside the
    array the entry is incremented.  A negative [s] names a property
    that is not an element, so the elements stay as they are.  An index
    past the end grows the array with [NaN] (and holes): the result is
    [None], after which [Math.max(...counts)] is [NaN]. *)
Fixpoint incrAt (counts : list Z) (i : nat) : list Z :=
  match counts, i with
  | [], _ => []
  | c :: t, O => (c + 1)%Z :: t
  | c :: t, S i' => c :: incrAt t i'
  end.

Definition countsIncr (counts : option (list Z)) (s : Z)
    : option (list Z) :=
  match counts with
  | None => None
  | Some c =>
      if (s <? 0)%Z then Some c
      else if (s <? len c)%Z then Some (incrAt c (Z.to_nat s))
      else None
  end.

(** [const counts = new Array(16).fill(0); valid.forEach(s => counts[s]++)] *)
Definition tally (valid : list Z) : option (list Z) :=
  fold_left countsIncr valid (Some (repeat 0%Z 16)).

(** [Math.max(...counts)] for a non-empty array of integers. *)
Definition maxOf (counts : list Z) : Z :=
  match counts with
  | [] => 0%Z
  | c :: t => fold_left Z.max t c
  end.

(** [counts.indexOf(v)]: the first index holding [v], or [-1]. *)
Fixpoint indexOfFrom (counts : list Z) (v : Z) (i : Z) : Z :=
  match counts with
  | [] => (-1)%Z
  | c :: t => if (c =? v)%Z then i else indexOfFrom t v (i + 1)%Z
  end.

Definition indexOf (counts : list Z) (v : Z) : Z := indexOfFrom counts v 0.

(** [counts.indexOf(Math.max(...counts))]; [indexOf(NaN)] is [-1]. *)
Definition winnerOf (valid : list Z) : Z :=
  match tally valid with
  | Some counts => indexOf counts (maxOf counts)
  | None => (-1)%Z
  end.

(** *** One tick of the sampling interval *)

(** The argument of [setSymCells]: per channel, [(hot, hottest)]. *)
Definition symCells (THRESH : Q) (det : Detection) : list (bool * bool) :=
  map (fun im : nat * Q =>
         let (i, m) := im in
         let top := (Z.of_nat i =? symbol det)%Z && Qgtb m THRESH in
         (Qgtb m (THRESH * (4 # 10)) && negb top, top))
      (combine (seq 0 (length (mags det))) (mags det)).

(** The end of a closed window:
    [sampleBuf = []; lastSymTime = now; setDecodedBits(..)]. *)
Definition windowTail (now : float) (s : Session) : Step :=
  let s := set_lastSymTime now (set_sampleBuf [] s) in
  (s, [SetDecodedBits (len (rxNibbles s)) (silenceCount s)]).

(** The [RX_IDLE] branch. *)
Definition tickIdle (sd : float) (THRESH : Q) (now : float) (mp : Q)
    (s : Session) : Step :=
  if Qgtb mp THRESH then
    let s := if falsy (preambleAt s) then set_preambleAt now s
             else s in
    if (sd * 1 <? now - preambleAt s)%float then
      let s := set_preambleEndsAt
                 (preambleAt s + PREAMBLE_SYMS * sd + 60)%float s in
      let s := set_rxState RX_PREAMBLE s in
      (s, [SetRxStatus warn MsgPreambleDetected])
    else (s, [])
  else (set_preambleAt 0 s, []).

(** The [RX_PREAMBLE] branch. *)
Definition tickPreamble (now : float) (s : Session) : Step :=
  if (preambleEndsAt s <=? now)%float then
    let s := set_rxState RX_DATA s in
    let s := set_rxNibbles [] s in
    let s := set_sampleBuf [] s in
    let s := set_lastSymTime now s in
    let s := set_silenceCount 0 s in
    let s := set_rxDataStart now s in
    (s, [SetRxStatus info MsgReceivingData])
  else (s, []).

(** The window-closing part of the [RX_DATA] branch. *)
Definition closeWindow (now : float) (s : Session) : Step :=
  let valid := validSamples (sampleBuf s) in
  if (len valid >? 0)%Z then
    let winner := winnerOf valid in
    let s := set_rxNibbles (rxNibbles s ++ [winner]) s in
    let s := set_silenceCount 0 s in
    liveUpdateRxImage s ;; windowTail now
  else
    let s := set_silenceCount (silenceCount s + 1) s in
    if (silenceCount s >=? 5)%Z
       && (len (rxNibbles s) >=? HEADER_LEN * 2)%Z then
      finalizePacket s
    else if (silenceCount s >=? 10)%Z && (len (rxNibbles s) =? 0)%Z then
      resetRxState s ;; emit [SetRxStatus info MsgListening]
    else windowTail now s.

(** The sample taken on a [RX_DATA] tick: the detected symbol when its
    magnitude is above the threshold (which also clears the silence
    counter), [null] otherwise. *)
Definition pushSample (THRESH : Q) (det : Detection) (s : Session)
    : Session :=
  if Qgtb (magnitude det) THRESH then
    set_silenceCount 0
      (set_sampleBuf (sampleBuf s ++ [Some (symbol det)]) s)
  else set_sampleBuf (sampleBuf s ++ [None]) s.

(** The [RX_DATA] branch. *)
Definition tickData (sd : float) (THRESH : Q) (now : float)
    (det : Detection) (s : Session) : Step :=
  if (45000 <? now - rxDataStart s)%float then
    emit [SetRxStatus warn MsgTimeout] s
    ;; resetRxState
    ;; emit [SetTimeoutListening 2000]
  else
    let s := pushSample THRESH det s in
    if (sd <=? now - lastSymTime s)%float then closeWindow now s
    else (s, []).

(** The callback of [setInterval] in [startSampling], run at time [now]
    on the analyser snapshot [a]. *)
Definition tick (cfg : Config) (a : option Analyser) (now : float)
    (s : Session) : Step :=
  let sd := symDur cfg in
  let THRESH := thresh cfg in
  let mp := getPreambleMag a in
  match detectSymbol cfg a with
  | None => (s, [])
  | Some det =>
      emit [SetDebugMag mp (magnitude det) (rxState s);
            SetSymCells (symCells THRESH det)] s
      ;; (fun s =>
            match rxState s with
            | RX_IDLE => tickIdle sd THRESH now mp s
            | RX_PREAMBLE => tickPreamble now s
            | RX_DATA => tickData sd THRESH now det s
            end)
  end.

End Receiver.

(* ================================================================== *)
(** ** Concrete inputs *)
(* ================================================================== *)

Module Examples.
Import Packet Detector Receiver.

(** The default settings of the component: 120 ms symbols, tones from
    1000 Hz every 200 Hz, and a threshold as the form allows. *)
Definition cfg : Config :=
  {| symDur := 120; baseFreq := 1000; spacing := 200;
     thresh := 3 # 100 |}.

(** Spectra of 8192 bins ([fftSize = 16384]) at 48 kHz: silence, and a
    band of energy of the given level around one bin. *)
Definition silence : Analyser :=
  {| freqData := repeat 0 (Z.to_nat 8192); sampleRate := 48000 |}.

(** Sixteen channels without any energy. *)
Definition zeros : list Q := repeat 0%Q 16.

(** Sixteen channels in which channels 2 and 4 are equally strong. *)
Definition twoPeaks : list Q :=
  [0; 1 # 10; 9 # 10; 0; 9 # 10; 0; 0; 0; 0; 0; 0; 0; 0; 0; 0; 2 # 10]%Q.

Definition toneAt (bin : Z) (level : Z) : Analyser :=
  {| freqData := repeat 0 (Z.to_nat (bin - 5)) ++ repeat level 11
                 ++ repeat 0 (Z.to_nat (8192 - bin - 6));
     sampleRate := 48000 |}.

(** The 500 Hz preamble tone falls into bin 171, the tone of symbol 3
    (1600 Hz) into bin 546. *)
Definition preambleTone : Analyser := toneAt 171 200.
Definition symbol3Tone : Analyser := toneAt 546 200.

(** A receiver that first saw the preamble at 1000 ms. *)
Definition idleSeen : Session :=
  {| rxState := RX_IDLE; rxNibbles := []; sampleBuf := [];
     lastSymTime := 0; preambleAt := 1000; preambleEndsAt := 0;
     silenceCount := 0; rxDataStart := 0 |}.

(** The same with the first sighting at the double nearest 1000.1 ms,
    and at the double nearest 57.4 ms. *)
Definition idleSeenAt (t : float) : Session :=
  {| rxState := RX_IDLE; rxNibbles := []; sampleBuf := [];
     lastSymTime := 0; preambleAt := t; preambleEndsAt := 0;
     silenceCount := 0; rxDataStart := 0 |}.
Definition t1000_1 : float := 0x1.f40cccccccccdp+9.
Definition t1540_1 : float := 0x1.8106666666666p+10.
Definition t57_4 : float := 0x1.cb33333333333p+5.
Definition t177_4 : float := 0x1.62ccccccccccdp+7.


(** A receiver in the data phase since 1540 ms, in the middle of a
    symbol window, with three nibbles decoded so far. *)
Definition receiving : Session :=
  {| rxState := RX_DATA; rxNibbles := [4; 1; 4];
     sampleBuf := [Some 3; Some 7; Some 3; None];
     lastSymTime := 1900; preambleAt := 1000; preambleEndsAt := 1540;
     silenceCount := 0; rxDataStart := 1540 |}.

(** The same with the data phase started at the double nearest
    1540.3 ms; the double nearest 46540.3 ms. *)
Definition t1540_3 : float := 0x1.8113333333333p+10.
Definition t46540_3 : float := 0x1.6b9899999999ap+15.
Definition receivingSince (t : float) : Session :=
  {| rxState := RX_DATA; rxNibbles := [4; 1; 4];
     sampleBuf := [Some 3; Some 7; Some 3; None];
     lastSymTime := 46500; preambleAt := 1000; preambleEndsAt := t;
     silenceCount := 0; rxDataStart := t |}.


(** A 30-byte text packet whose header declares 0xFFFFFFEC payload
    bytes, followed by the 14 bytes that were received. *)
Definition longHeader : list Z :=
  [0x41; 0x43; 0x53; 0x54; 0x54; 0xff; 0xff; 0xff; 0xec;
   0; 0; 0; 0; 0; 0; 0].
Definition received14 : list Z :=
  [72; 101; 108; 108; 111; 32; 87; 111; 114; 108; 100; 33; 33; 33].

Definition holdingLongPacket : Session :=
  {| rxState := RX_DATA;
     rxNibbles := bytesToNibbles (longHeader ++ received14);
     sampleBuf := [];
     lastSymTime := 9000; preambleAt := 1000; preambleEndsAt := 1540;
     silenceCount := 5; rxDataStart := 1540 |}.

(** A receiver holding 15 bytes and one unpaired nibble. *)
Definition holdingShort : Session :=
  {| rxState := RX_DATA;
     rxNibbles := bytesToNibbles (firstn 15 longHeader) ++ [7];
     sampleBuf := [];
     lastSymTime := 9000; preambleAt := 1000; preambleEndsAt := 1540;
     silenceCount := 5; rxDataStart := 1540 |}.

End Examples.

(* ================================================================== *)
(** ** Vocabulary of the statements *)
(* ================================================================== *)

Module Spec.
Import JS Packet.

(** A byte, a nibble. *)
Definition is_byte (b : Z) : Prop := 0 <= b <= 255.
Definition is_nibble (n : Z) : Prop := 0 <= n <= 15.

(** Consecutive pairs of a nibble sequence, high nibble first; an
    unpaired last entry is dropped. *)
Fixpoint pack (ns : list Z) : list Z :=
  match ns with
  | hi :: lo :: rest =>
      bor (shl (band hi 0xf) 4) (band lo 0xf) :: pack rest
  | _ => []
  end.

(** Number of occurrences of [v] in a window. *)
Definition occ (v : Z) (valid : list Z) : nat := count_occ Z.eq_dec valid v.

(** [w] is the symbol value 0..15 seen most often in the window
    [valid], and the lowest one among those seen equally often. *)
Definition is_majority (valid : list Z) (w : Z) : Prop :=
  0 <= w <= 15
  /\ (forall v, 0 <= v <= 15 -> (occ v valid <= occ w valid)%nat)
  /\ (forall v, 0 <= v < w -> (occ v valid < occ w valid)%nat).


(** Every non-null entry of a window buffer is [-1] or a symbol
    value. *)
Definition windowInRange (window : list (option Z)) : Prop :=
  forall x, In (Some x) window -> -1 <= x <= 15.


End Spec.

Module RxSpec.
Import Detector Receiver.

(** Number of [TIMEOUT] status lines among the effects of a run. *)
Definition timeouts (es : list Effect) : nat :=
  length (filter (fun e => match e with
                           | SetRxStatus _ MsgTimeout => true
                           | _ => false
                           end) es).


(** The session [resetRxState] leaves. *)
Definition idleSession (s : Session) : Session :=
  {| rxState := RX_IDLE; rxNibbles := []; sampleBuf := [];
     lastSymTime := lastSymTime s; preambleAt := 0; preambleEndsAt := 0;
     silenceCount := 0; rxDataStart := 0 |}.

(** The two effects that open every tick that has a spectrum. *)
Definition display (cfg : Config) (a : option Analyser)
    (det : Detection) (s : Session) : list Effect :=
  [SetDebugMag (getPreambleMag a) (magnitude det) (rxState s);
   SetSymCells (symCells (thresh cfg) det)].

(** The session after the vote of a window: the winner appended to
    the accumulator, the silence counter cleared. *)
Definition voted (w : Z) (s : Session) : Session :=
  set_silenceCount 0 (set_rxNibbles (rxNibbles s ++ [w]) s).

(** Every sample of the window is [-1] or a symbol value. *)
Definition samplesInRange (s : Session) : Prop :=
  Forall (fun x => (-1 <= x <= 15)%Z) (validSamples (sampleBuf s)).

End RxSpec.

(* ================================================================== *)
(** ** Transmitter *)
(* ================================================================== *)

Module Transmitter.
Import JS Packet Detector.

Local Open Scope Q_scope.

(** The arithmetic of the transmitter's numbers: the four operations,
    the numeric literals of the program text, [x < y] and
    [Math.min(x, y)]. *)
Class Num (T : Type) : Type := mkNum
  { add : T -> T -> T;
    sub : T -> T -> T;
    mul : T -> T -> T;
    div : T -> T -> T;
    lit : Q -> T;
    lt : T -> T -> bool;
    min : T -> T -> T }.

(** The double nearest to an integer, and to a literal [n / d] with
    integers that doubles represent: the correctly rounded quotient. *)
Definition Z2double (z : Z) : float :=
  SF2Prim (binary_normalize prec emax z 0 false).

Definition Q2double (q : Q) : float :=
  (Z2double (Qnum q) / Z2double (Zpos (Qden q)))%float.

(** [Math.min] on doubles: [NaN] if an argument is, [-0] below [+0]. *)
Definition minDouble (x y : float) : float :=
  if is_nan x || is_nan y then nan
  else if is_zero x && is_zero y then (if get_sign x then x else y)
  else if (x <=? y)%float then x else y.

(** The program's numbers: IEEE binary64. *)
#[export] Instance double : Num float :=
  {| add := PrimFloat.add; sub := PrimFloat.sub; mul := PrimFloat.mul;
     div := PrimFloat.div; lit := Q2double; lt := PrimFloat.ltb;
     min := minDouble |}.

(** The same operations without rounding. *)
#[export] Instance exact : Num Q :=
  {| add := Qplus; sub := Qminus; mul := Qmult; div := Qdiv;
     lit := fun q => q; lt := fun x y => Qgtb y x;
     min := fun x y => if Qle_bool x y then x else y |}.

(** One call [playTone(ctx, freq, startTime, duration, gain)]; times are
    seconds on the audio clock. *)
Record ToneCall (T : Type) : Type := mkTone
  { toneFreq : T; toneStart : T; toneDuration : T; toneGain : T }.

Arguments mkTone {T}.
Arguments toneFreq {T}.
Arguments toneStart {T}.
Arguments toneDuration {T}.
Arguments toneGain {T}.

(** The points of the gain envelope [playTone] programs, and the time
    the oscillator is stopped: gain 0 at the start, the full gain 4 ms
    later, held until 6 ms before the end, 0 at the end, stop 10 ms after
    the end. *)
Record Envelope (T : Type) : Type := mkEnvelope
  { rampUpFrom : T; rampUpTo : T; holdUntil : T; rampDownTo : T;
    oscStop : T }.

Arguments mkEnvelope {T}.
Arguments rampUpFrom {T}.
Arguments rampUpTo {T}.
Arguments holdUntil {T}.
Arguments rampDownTo {T}.
Arguments oscStop {T}.

(** The settings [transmit] reads from the rendered state
    ([symDuration], [baseFreq], [freqSpacing]). *)
Record Settings (T : Type) : Type := mkSettings
  { symDuration : T; stateBaseFreq : T; freqSpacing : T }.

Arguments mkSettings {T}.
Arguments symDuration {T}.
Arguments stateBaseFreq {T}.
Arguments freqSpacing {T}.

Inductive TxMode : Type := ModeText | ModeImage.

(** What [transmit] reads: the mode, the text box as the bytes
    [TextEncoder] makes of it (empty exactly for the empty string), the
    compressed image if one is loaded, and its size. *)
Record TxInput : Type := mkTxInput
  { txMode : TxMode;
    txInput : list Z;
    pendingJpegBytes : option (list Z);
    pendingImgW : Z;
    pendingImgH : Z }.

(** The audible part of a transmission: the packet, its nibbles, the
    [playTone] calls in order, and [totalMs]. *)
Record Transmission (T : Type) : Type := mkTransmission
  { fullPacket : list Z;
    nibbles : list Z;
    tones : list (ToneCall T);
    totalMs : T }.

Arguments mkTransmission {T}.
Arguments fullPacket {T}.
Arguments nibbles {T}.
Arguments tones {T}.
Arguments totalMs {T}.

(** The outcome of [transmit()]: the silent return on an empty text,
    the status NO IMAGE LOADED, or a scheduled transmission. *)
Inductive TxResult (T : Type) : Type :=
| TxNothing
| TxNoImage
| TxScheduled (t : Transmission T).

Arguments TxNothing {T}.
Arguments TxNoImage {T}.
Arguments TxScheduled {T}.

Section Arithmetic.
Context {T : Type} {N : Num T}.

(** The constants as the transmitter's arithmetic has them. *)
Definition PREAMBLE_SYMS : T := lit 4.

Definition playTone (c : ToneCall T) : Envelope T :=
  {| rampUpFrom := toneStart c;
     rampUpTo := add (toneStart c) (lit (4 # 1000));
     holdUntil := sub (add (toneStart c) (toneDuration c)) (lit (6 # 1000));
     rampDownTo := add (toneStart c) (toneDuration c);
     oscStop := add (add (toneStart c) (toneDuration c)) (lit (1 # 100)) |}.

(** [getFreqs()]: the tone table from the rendered settings. *)
Definition getFreqs (cfg : Settings T) : list T :=
  map (fun i => add (stateBaseFreq cfg)
                    (mul (lit (inject_Z (Z.of_nat i))) (freqSpacing cfg)))
      (seq 0 16).

(** [freqs[nib]]; the nibbles of [bytesToNibbles] are 0..15, so the
    default, which stands for [undefined], is never read. *)
Definition freqOf (freqs : list T) (nib : Z) : T :=
  nth (Z.to_nat nib) freqs (lit 0).

(** [nibbles.forEach(nib => { playTone(.., freqs[nib], t, symS * 0.9, 0.4);
    t += symS })] on the pair of the calls made so far and [t]. *)
Definition toneStep (freqs : list T) (symS : T) (st : list (ToneCall T) * T)
    (nib : Z) : list (ToneCall T) * T :=
  (fst st ++ [{| toneFreq := freqOf freqs nib;
                 toneStart := snd st;
                 toneDuration := mul symS (lit (9 # 10));
                 toneGain := lit (4 # 10) |}],
   add (snd st) symS).

(** From [const fullPacket = ..] on: the packet, the preamble tone and
    one tone per nibble, scheduled from [currentTime]. *)
Definition schedule (cfg : Settings T) (currentTime : T)
    (header payloadBytes : list Z) : Transmission T :=
  let freqs := getFreqs cfg in
  let fullPacket := header ++ payloadBytes in
  let nibbles := bytesToNibbles fullPacket in
  let symS := div (symDuration cfg) (lit 1000) in
  let t := add currentTime (lit (5 # 100)) in
  let preamble :=
    {| toneFreq := lit PREAMBLE_FREQ; toneStart := t;
       toneDuration := mul symS PREAMBLE_SYMS; toneGain := lit (5 # 10) |} in
  let t := add t (add (mul symS PREAMBLE_SYMS) (lit (6 # 100))) in
  let st := fold_left (toneStep freqs symS) nibbles ([preamble], t) in
  {| fullPacket := fullPacket;
     nibbles := nibbles;
     tones := fst st;
     totalMs := mul (sub (snd st) currentTime) (lit 1000) |}.

(** [transmit()] *)
Definition transmit (cfg : Settings T) (inp : TxInput) (currentTime : T)
    : TxResult T :=
  match txMode inp with
  | ModeText =>
      match txInput inp with
      | [] => TxNothing
      | payloadBytes =>
          TxScheduled
            (schedule cfg currentTime
               (buildHeader TYPE_TEXT (Receiver.len payloadBytes) 0 0) payloadBytes)
      end
  | ModeImage =>
      match pendingJpegBytes inp with
      | None => TxNoImage
      | Some payloadBytes =>
          TxScheduled
            (schedule cfg currentTime
               (buildHeader TYPE_IMAGE (Receiver.len payloadBytes)
                            (pendingImgW inp) (pendingImgH inp))
               payloadBytes)
      end
  end.

(** [Math.min((performance.now() - txStart) / totalMs, 1)] in [anim]. *)
Definition txFrac (now txStart totalMs : T) : T :=
  min (div (sub now txStart) totalMs) (lit 1).

(** The argument of [setTxProgress], and whether [anim] reports DONE
    instead of asking for another frame. *)
Definition txProgress (now txStart totalMs : T) : T :=
  mul (txFrac now txStart totalMs) (lit 100).

Definition txDone (now txStart totalMs : T) : bool :=
  negb (lt (txFrac now txStart totalMs) (lit 1)).

(** The clock [t] after [k] rounds of [t += symS]. *)
Definition stepped (k : nat) (t symS : T) : T :=
  Nat.iter k (fun t => add t symS) t.

(** The clock at the first data tone:
    [t = currentTime + 0.05; t += symS * PREAMBLE_SYMS + 0.06]. *)
Definition dataClock (cfg : Settings T) (currentTime : T) : T :=
  add (add currentTime (lit (5 # 100)))
      (add (mul (div (symDuration cfg) (lit 1000)) PREAMBLE_SYMS)
           (lit (6 # 100))).

End Arithmetic.

(** In doubles, for every two tones that follow each other in a list:
    the gain of the first is back at 0 before the fade-in of the second
    starts, and the oscillator of the first has been stopped by
    then. *)
Fixpoint apart (cs : list (ToneCall float)) : bool :=
  match cs with
  | [] => true
  | c1 :: rest =>
      match rest with
      | [] => true
      | c2 :: _ =>
          (rampDownTo (playTone c1) <? rampUpFrom (playTone c2))%float
          && (oscStop (playTone c1) <=? rampUpFrom (playTone c2))%float
          && apart rest
      end
  end.

End Transmitter.

(* ================================================================== *)
(** ** The sampling interval *)
(* ================================================================== *)

Module Driver.
Import Detector Receiver.

(** The callback of [setInterval] run once per entry of [inputs], each
    with the analyser snapshot and the clock of its tick, one after the
    other. *)
Definition run (cfg : Config) (inputs : list (option Analyser * float))
    (s : Session) : Step :=
  fold_left (fun r (i : option Analyser * float) =>
               r ;; tick cfg (fst i) (snd i))
            inputs (s, []).

End Driver.

(* ================================================================== *)
(** ** Vocabulary of the receiver properties *)
(* ================================================================== *)

Module RxProps.
Import Detector Receiver Spec RxSpec.

(** The moves of the state machine: stay, IDLE to the waiting state,
    the waiting state to DATA, DATA back to IDLE. *)
Definition allowedMove (from to : RxState) : Prop :=
  match from, to with
  | RX_IDLE, RX_IDLE | RX_IDLE, RX_PREAMBLE => True
  | RX_PREAMBLE, RX_PREAMBLE | RX_PREAMBLE, RX_DATA => True
  | RX_DATA, RX_DATA | RX_DATA, RX_IDLE => True
  | _, _ => False
  end.

(** A session as the receiver keeps it: the window holds detector
    output, the accumulator holds nibbles, the silence counter is not
    negative, and outside the data phase accumulator and window are
    empty. *)
Definition wellFormed (s : Session) : Prop :=
  samplesInRange s
  /\ Forall is_nibble (rxNibbles s)
  /\ (0 <= silenceCount s)%Z
  /\ (rxState s <> RX_DATA -> rxNibbles s = [] /\ sampleBuf s = []).


End RxProps.

(* ================================================================== *)
(** ** More concrete inputs *)
(* ================================================================== *)

Module Scenarios.
Import Packet Detector Receiver Transmitter.

(** The default settings as [transmit] reads them, and the text "Hi"
    scheduled with them at audio time 0: as the program computes it,
    in doubles. *)
Definition settings : Settings float :=
  {| symDuration := 120%float; stateBaseFreq := 1000%float;
     freqSpacing := 200%float |}.

Definition shortText : Transmission float :=
  schedule settings 0%float (buildHeader TYPE_TEXT 2 0 0) [72; 105].

(** The same in the arithmetic without rounding. *)
Definition settingsExact : Settings Q :=
  {| symDuration := 120%Q; stateBaseFreq := 1000%Q; freqSpacing := 200%Q |}.

Definition shortTextExact : Transmission Q :=
  schedule settingsExact 0%Q (buildHeader TYPE_TEXT 2 0 0) [72; 105].

Definition noTone : ToneCall Q := mkTone 0%Q 0%Q 0%Q 0%Q.




End Scenarios.

(* ================================================================== *)
(** ** Facts about the integer primitives *)
(* ================================================================== *)

Module JSFacts.
Import JS Spec.

Lemma toInt32_id x : - 2^31 <= x < 2^31 -> toInt32 x = x.
Proof.
  intros H. unfold toInt32.
  rewrite Z.mod_small; lia.
Qed.

Lemma toInt32_range x : - 2^31 <= toInt32 x < 2^31.
Proof.
  unfold toInt32.
  pose proof (Z.mod_pos_bound (x + 2^31) (2^32) ltac:(lia)). lia.
Qed.

(** [ToInt32] keeps the residue modulo any power of two up to 2^32. *)
Lemma toInt32_mod x k :
  0 <= k <= 32 -> toInt32 x mod 2^k = x mod 2^k.
Proof.
  intros Hk. unfold toInt32.
  assert (E : 2^32 = 2^k * 2^(32 - k)).
  { rewrite <- Z.pow_add_r by lia. f_equal. lia. }
  rewrite Zminus_mod, E.
  rewrite Z.rem_mul_r by (try apply Z.pow_nonzero; try apply Z.pow_pos_nonneg; lia).
  rewrite Z.mul_comm, Z_mod_plus_full.
  rewrite Z.mod_mod by (apply Z.pow_nonzero; lia).
  rewrite <- Zminus_mod. f_equal. lia.
Qed.

Lemma band_ones x n :
  0 <= n < 32 -> band x (Z.ones n) = x mod 2^n.
Proof.
  intros Hn. unfold band.
  assert (Hb : 0 <= Z.ones n < 2^31).
  { rewrite Z.ones_equiv. 
    assert (0 < 2^n) by (apply Z.pow_pos_nonneg; lia).
    assert (2^n <= 2^31) by (apply Z.pow_le_mono_r; lia). lia. }
  rewrite (toInt32_id (Z.ones n)) by lia.
  rewrite Z.land_ones by lia.
  rewrite toInt32_mod by lia.
  apply toInt32_id.
  pose proof (Z.mod_pos_bound x (2^n) ltac:(apply Z.pow_pos_nonneg; lia)).
  assert (2^n <= 2^31) by (apply Z.pow_le_mono_r; lia). lia.
Qed.

Lemma band_0xff x : band x 0xff = x mod 256.
Proof. exact (band_ones x 8 ltac:(lia)). Qed.

Lemma band_0xf x : band x 0xf = x mod 16.
Proof. exact (band_ones x 4 ltac:(lia)). Qed.

Lemma sar_div x n : 0 <= n < 32 -> sar x n = toInt32 x / 2^n.
Proof.
  intros Hn. unfold sar. rewrite Z.mod_small by lia.
  apply Z.shiftr_div_pow2. lia.
Qed.

Lemma shl_mul x n :
  0 <= n < 32 -> - 2^31 <= x < 2^31 -> shl x n = toInt32 (x * 2^n).
Proof.
  intros Hn Hx. unfold shl. rewrite Z.mod_small by lia.
  rewrite (toInt32_id x) by lia.
  rewrite Z.shiftl_mul_pow2 by lia. reflexivity.
Qed.

End JSFacts.

(* ================================================================== *)
(** ** The packet codec *)
(* ================================================================== *)

Module PacketFacts.
Import JS Packet Spec JSFacts.

(** *** The two loops, as list recursions *)

Lemma bytesToNibbles_acc bytes out :
  fold_left (fun out b => out ++ [band (sar b 4) 0xf; band b 0xf]) bytes out
  = out ++ flat_map (fun b => [band (sar b 4) 0xf; band b 0xf]) bytes.
Proof.
  revert out. induction bytes as [|b bytes IH]; intros out; simpl.
  - now rewrite app_nil_r.
  - rewrite IH, <- app_assoc. reflexivity.
Qed.

Lemma bytesToNibbles_flat_map bytes :
  bytesToNibbles bytes
  = flat_map (fun b => [band (sar b 4) 0xf; band b 0xf]) bytes.
Proof. unfold bytesToNibbles. now rewrite bytesToNibbles_acc. Qed.

Lemma bytesToNibbles_cons b bytes :
  bytesToNibbles (b :: bytes)
  = band (sar b 4) 0xf :: band b 0xf :: bytesToNibbles bytes.
Proof. now rewrite !bytesToNibbles_flat_map. Qed.

Lemma idx_app_here pre x rest : idx (pre ++ x :: rest) (length pre) = x.
Proof. unfold idx. now rewrite nth_middle. Qed.

Lemma idx_app_next pre x y rest :
  idx (pre ++ x :: y :: rest) (length pre + 1) = y.
Proof.
  unfold idx.
  replace (pre ++ x :: y :: rest) with ((pre ++ [x]) ++ y :: rest)
    by now rewrite <- app_assoc.
  replace (length pre + 1)%nat with (length (pre ++ [x]))
    by now rewrite length_app.
  apply nth_middle.
Qed.

(** The index loop walks the pairs of its input; fuel equal to the
    number of entries still ahead is always enough. *)
Lemma nibblesToBytes_loop_pack fuel :
  forall pre ns out,
    (length ns <= fuel)%nat ->
    nibblesToBytes_loop fuel (pre ++ ns) (length pre) out = out ++ pack ns.
Proof.
  induction fuel as [|fuel IH]; intros pre ns out Hfuel.
  - destruct ns; [|simpl in Hfuel; lia]. simpl. now rewrite app_nil_r.
  - destruct ns as [|hi [|lo rest]]; simpl nibblesToBytes_loop.
    + rewrite app_nil_r.
      replace (length pre + 1 <? length pre)%nat with false
        by (symmetry; apply Nat.ltb_ge; lia).
      simpl. now rewrite app_nil_r.
    + replace (length pre + 1 <? length (pre ++ [hi]))%nat with false
        by (symmetry; apply Nat.ltb_ge; rewrite length_app; simpl; lia).
      simpl. now rewrite app_nil_r.
    + replace (length pre + 1 <? length (pre ++ hi :: lo :: rest))%nat
        with true
        by (symmetry; apply Nat.ltb_lt; rewrite length_app; simpl; lia).
      rewrite idx_app_here, idx_app_next.
      replace (pre ++ hi :: lo :: rest) with ((pre ++ [hi; lo]) ++ rest)
        by now rewrite <- app_assoc.
      replace (length pre + 2)%nat with (length (pre ++ [hi; lo]))
        by (rewrite length_app; reflexivity).
      rewrite IH by (simpl in Hfuel; lia).
      simpl. now rewrite <- app_assoc.
Qed.

Lemma nibblesToBytes_pack ns : nibblesToBytes ns = map toUint8 (pack ns).
Proof.
  unfold nibblesToBytes.
  pose proof (nibblesToBytes_loop_pack (length ns) [] ns [] (le_n _)) as H.
  simpl in H. now rewrite H.
Qed.

Lemma nibblesToBytes_cons2 hi lo rest :
  nibblesToBytes (hi :: lo :: rest)
  = toUint8 (bor (shl (band hi 0xf) 4) (band lo 0xf))
    :: nibblesToBytes rest.
Proof. now rewrite !nibblesToBytes_pack. Qed.

(** *** One byte, one pair of nibbles *)

Lemma nibble_range x : is_nibble (band x 0xf).
Proof.
  rewrite band_0xf. unfold is_nibble.
  pose proof (Z.mod_pos_bound x 16 ltac:(lia)). lia.
Qed.

(** Joining two nibbles: [(hi << 4) | lo] is [16 * hi + lo]. *)
Lemma join_nibbles hi lo :
  is_nibble hi -> is_nibble lo ->
  bor (shl hi 4) lo = 16 * hi + lo.
Proof.
  unfold is_nibble. intros Hhi Hlo.
  rewrite shl_mul by lia.
  change (2^4) with 16.
  rewrite (toInt32_id (hi * 16)) by lia.
  unfold bor. rewrite (toInt32_id (hi * 16)), (toInt32_id lo) by lia.
  assert (L : Z.land (hi * 2^4) lo = 0).
  { apply Z.bits_inj'. intros n Hn.
    rewrite Z.land_spec, Z.bits_0.
    destruct (Z.lt_ge_cases n 4) as [Hlt|Hge].
    - rewrite Z.mul_pow2_bits_low by lia. reflexivity.
    - rewrite (Z.bits_above_log2 lo n); [apply andb_false_r|lia|].
      destruct (Z.eq_dec lo 0) as [->|Hnz]; [simpl; lia|].
      apply Z.log2_lt_pow2; [lia|].
      assert (2^4 <= 2^n) by (apply Z.pow_le_mono_r; lia). lia. }
  change (2^4) with 16 in L.
  rewrite <- Z.lxor_lor, <- Z.add_nocarry_lxor by exact L.
  rewrite toInt32_id; lia.
Qed.

Lemma split_join_byte b :
  is_byte b ->
  toUint8 (bor (shl (band (band (sar b 4) 0xf) 0xf) 4)
               (band (band b 0xf) 0xf)) = b.
Proof.
  unfold is_byte. intros Hb.
  rewrite !band_0xf, sar_div, toInt32_id by lia.
  change (2^4) with 16.
  rewrite !Z.mod_mod by lia.
  rewrite join_nibbles
    by (unfold is_nibble;
        pose proof (Z.mod_pos_bound (b / 16) 16 ltac:(lia));
        pose proof (Z.mod_pos_bound b 16 ltac:(lia)); lia).
  unfold toUint8.
  rewrite (Z.mod_small (b / 16) 16)
    by (split; [apply Z.div_pos; lia | apply Z.div_lt_upper_bound; lia]).
  rewrite <- Z.div_mod by lia.
  apply Z.mod_small. lia.
Qed.

Lemma join_split_nibbles hi lo :
  is_nibble hi -> is_nibble lo ->
  band (sar (toUint8 (bor (shl (band hi 0xf) 4) (band lo 0xf))) 4) 0xf = hi
  /\ band (toUint8 (bor (shl (band hi 0xf) 4) (band lo 0xf))) 0xf = lo.
Proof.
  unfold is_nibble. intros Hhi Hlo.
  rewrite (band_0xf hi), (band_0xf lo), !Z.mod_small by lia.
  rewrite join_nibbles by (unfold is_nibble; lia).
  unfold toUint8. rewrite (Z.mod_small (16 * hi + lo)) by lia.
  rewrite !band_0xf, sar_div, toInt32_id by lia.
  change (2^4) with 16.
  split.
  - replace (16 * hi + lo) with (hi * 16 + lo) by lia.
    rewrite Z.div_add_l, (Z.div_small lo 16) by lia.
    rewrite Z.add_0_r. apply Z.mod_small. lia.
  - replace (16 * hi + lo) with (lo + hi * 16) by lia.
    rewrite Z_mod_plus_full. apply Z.mod_small. lia.
Qed.

Lemma bytesToNibbles_nibbles bytes : Forall is_nibble (bytesToNibbles bytes).
Proof.
  induction bytes as [|b bytes IH].
  - constructor.
  - rewrite bytesToNibbles_cons.
    repeat constructor; try apply nibble_range. exact IH.
Qed.

Lemma bytesToNibbles_length bytes :
  length (bytesToNibbles bytes) = (2 * length bytes)%nat.
Proof.
  induction bytes as [|b bytes IH]; [reflexivity|].
  rewrite bytesToNibbles_cons. simpl. rewrite IH. lia.
Qed.

(** Induction two entries at a time. *)
Lemma pair_induction (P : list Z -> Prop) :
  P [] -> (forall x, P [x]) ->
  (forall x y rest, P rest -> P (x :: y :: rest)) ->
  forall l, P l.
Proof.
  intros H0 H1 H2.
  fix IH 1. intros [|x [|y rest]]; [exact H0 | exact (H1 x) |].
  apply H2, IH.
Qed.

End PacketFacts.

Module HeaderFacts.
Import JS Packet Spec JSFacts.

(** [a | c] adds when [a] is a multiple of [2^n] and [c] fits below. *)
Lemma bor_disjoint a c n k :
  a = k * 2^n -> 0 <= n -> 0 <= c < 2^n -> c < 2^31 ->
  - 2^31 <= a -> a + c < 2^31 ->
  bor a c = a + c.
Proof.
  intros Ha Hn Hc Hc' Hlo Hhi.
  assert (0 < 2^n) by (apply Z.pow_pos_nonneg; lia).
  unfold bor. rewrite (toInt32_id a), (toInt32_id c) by lia.
  assert (L : Z.land a c = 0).
  { destruct (Z.eq_dec c 0) as [->|Hnz]; [apply Z.land_0_r|].
    apply Z.bits_inj'. intros m Hm.
    rewrite Z.land_spec, Z.bits_0.
    destruct (Z.lt_ge_cases m n) as [Hlt|Hge].
    - rewrite Ha, Z.mul_pow2_bits_low by lia. reflexivity.
    - rewrite (Z.bits_above_log2 c m); [apply andb_false_r|lia|].
      apply Z.log2_lt_pow2; [lia|].
      assert (2^n <= 2^m) by (apply Z.pow_le_mono_r; lia). lia. }
  rewrite <- Z.lxor_lor, <- Z.add_nocarry_lxor by exact L.
  apply toInt32_id. lia.
Qed.

(** The sixteen bytes [buildHeader] leaves in the array. *)
Lemma buildHeader_bytes ty plen w h :
  buildHeader ty plen w h =
  [0x41; 0x43; 0x53; 0x54; toUint8 ty;
   toUint8 (band (sar plen 24) 0xff); toUint8 (band (sar plen 16) 0xff);
   toUint8 (band (sar plen 8) 0xff); toUint8 (band plen 0xff);
   toUint8 (band (sar w 8) 0xff); toUint8 (band w 0xff);
   toUint8 (band (sar h 8) 0xff); toUint8 (band h 0xff);
   0; 0; 0].
Proof. reflexivity. Qed.

Lemma buildHeader_length ty plen w h :
  length (buildHeader ty plen w h) = 16%nat.
Proof. reflexivity. Qed.

(** The byte stored for bits [8k .. 8k+7] of a 32-bit quantity. *)
Lemma stored_byte x k :
  0 <= k < 32 ->
  toUint8 (band (sar x k) 0xff) = (toInt32 x / 2^k) mod 256.
Proof.
  intros Hk. rewrite band_0xff, sar_div by lia.
  unfold toUint8. apply Z.mod_mod. lia.
Qed.

Lemma toInt32_mod256 x : toInt32 x mod 256 = x mod 256.
Proof. exact (toInt32_mod x 8 ltac:(lia)). Qed.

Lemma stored_low_byte x : toUint8 (band x 0xff) = toInt32 x mod 256.
Proof.
  rewrite band_0xff. unfold toUint8.
  rewrite Z.mod_mod by lia. symmetry. apply toInt32_mod256.
Qed.

(** Reading four bytes big-endian with [<<] and [|] yields the signed
    32-bit integer with those bytes. *)
Lemma read_be32 b0 b1 b2 b3 :
  is_byte b0 -> is_byte b1 -> is_byte b2 -> is_byte b3 ->
  bor (bor (bor (shl b0 24) (shl b1 16)) (shl b2 8)) b3
  = toInt32 (b0 * 2^24 + b1 * 2^16 + b2 * 2^8 + b3).
Proof.
  unfold is_byte. intros H0 H1 H2 H3.
  rewrite !shl_mul by lia.
  rewrite (toInt32_id (b1 * 2^16)), (toInt32_id (b2 * 2^8)) by lia.
  destruct (Z.lt_ge_cases b0 128) as [Hlt|Hge].
  - rewrite (toInt32_id (b0 * 2^24)) by lia.
    rewrite (bor_disjoint (b0 * 2^24) (b1 * 2^16) 24 b0) by lia.
    rewrite (bor_disjoint (b0 * 2^24 + b1 * 2^16) (b2 * 2^8) 16
               (b0 * 2^8 + b1)) by lia.
    rewrite (bor_disjoint (b0 * 2^24 + b1 * 2^16 + b2 * 2^8) b3 8
               (b0 * 2^16 + b1 * 2^8 + b2)) by lia.
    symmetry. apply toInt32_id. lia.
  - assert (E0 : toInt32 (b0 * 2^24) = (b0 - 256) * 2^24).
    { unfold toInt32.
      replace (b0 * 2^24 + 2^31)
        with ((b0 - 256) * 2^24 + 2^31 + 1 * 2^32) by lia.
      rewrite Z_mod_plus_full, Z.mod_small; lia. }
    rewrite E0.
    rewrite (bor_disjoint ((b0 - 256) * 2^24) (b1 * 2^16) 24 (b0 - 256))
      by lia.
    rewrite (bor_disjoint ((b0 - 256) * 2^24 + b1 * 2^16) (b2 * 2^8) 16
               ((b0 - 256) * 2^8 + b1)) by lia.
    rewrite (bor_disjoint ((b0 - 256) * 2^24 + b1 * 2^16 + b2 * 2^8) b3 8
               ((b0 - 256) * 2^16 + b1 * 2^8 + b2)) by lia.
    unfold toInt32.
    replace (b0 * 2^24 + b1 * 2^16 + b2 * 2^8 + b3 + 2^31)
      with ((b0 - 256) * 2^24 + b1 * 2^16 + b2 * 2^8 + b3 + 2^31 + 1 * 2^32)
      by lia.
    rewrite Z_mod_plus_full, Z.mod_small; lia.
Qed.

Lemma read_be16 b0 b1 :
  is_byte b0 -> is_byte b1 -> bor (shl b0 8) b1 = b0 * 2^8 + b1.
Proof.
  unfold is_byte. intros H0 H1.
  rewrite shl_mul by lia.
  rewrite (toInt32_id (b0 * 2^8)) by lia.
  apply (bor_disjoint (b0 * 2^8) b1 8 b0); lia.
Qed.

Lemma mod256_byte x : is_byte (x mod 256).
Proof.
  unfold is_byte. pose proof (Z.mod_pos_bound x 256 ltac:(lia)). lia.
Qed.

(** The four stored length bytes of any number spell its [ToInt32]. *)
Lemma be32_digits x :
  ((toInt32 x / 2^24) mod 256) * 2^24 + ((toInt32 x / 2^16) mod 256) * 2^16
  + ((toInt32 x / 2^8) mod 256) * 2^8 + toInt32 x mod 256
  = toInt32 x mod 2^32.
Proof.
  change (2^8) with 256. change (2^16) with 65536.
  change (2^24) with 16777216. change (2^32) with 4294967296.
  generalize (toInt32 x). intros y.
  Z.div_mod_to_equations. lia.
Qed.

Lemma toInt32_idem x : toInt32 (toInt32 x mod 2^32) = toInt32 x.
Proof.
  pose proof (toInt32_range x) as R.
  unfold toInt32 at 1.
  rewrite Zplus_mod_idemp_l.
  rewrite Z.mod_small; lia.
Qed.

(** What [parseHeader] recovers from a built header, for every choice
    of the four arguments. *)
Lemma parse_build ty plen w h :
  parseHeader (buildHeader ty plen w h)
  = Some {| type := ty mod 256;
            payloadLen := toInt32 plen;
            imgW := toInt32 w mod 2^16;
            imgH := toInt32 h mod 2^16 |}.
Proof.
  rewrite buildHeader_bytes.
  unfold parseHeader.
  change (Z.of_nat (length _) <? HEADER_LEN) with false.
  change (magic_mismatch _) with false.
  cbv iota. unfold idx. cbn [nth].
  rewrite !stored_byte, !stored_low_byte by lia.
  rewrite read_be32 by apply mod256_byte.
  rewrite !read_be16 by apply mod256_byte.
  rewrite be32_digits, toInt32_idem.
  f_equal. f_equal.
  - change (2^8) with 256. change (2^16) with 65536.
    generalize (toInt32 w). intros y. Z.div_mod_to_equations. lia.
  - change (2^8) with 256. change (2^16) with 65536.
    generalize (toInt32 h). intros y. Z.div_mod_to_equations. lia.
Qed.

End HeaderFacts.

Module CodecTheorems.
Import JS Packet Spec JSFacts PacketFacts HeaderFacts.

(** For a byte, the two entries pushed by [bytesToNibbles] are its high
    and its low half. *)
Lemma byte_halves b :
  is_byte b -> band (sar b 4) 0xf = b / 16 /\ band b 0xf = b mod 16.
Proof.
  unfold is_byte. intros Hb.
  rewrite !band_0xf, sar_div, toInt32_id by lia.
  change (2^4) with 16. split; [|reflexivity].
  apply Z.mod_small.
  split; [apply Z.div_pos; lia | apply Z.div_lt_upper_bound; lia].
Qed.

(** C1. For every sequence [B] of bytes (integers 0..255),
    [nibblesToBytes (bytesToNibbles B)] is [B] again, and
    [bytesToNibbles] lists, for each byte in order, its high nibble
    [b / 16] first and then its low nibble [b mod 16]. *)
Theorem nibbles_of_bytes_roundtrip (B : list Z) :
  Forall is_byte B ->
  nibblesToBytes (bytesToNibbles B) = B
  /\ bytesToNibbles B = flat_map (fun b => [b / 16; b mod 16]) B.
Proof.
  induction 1 as [|b B Hb HB [IH1 IH2]].
  - split; reflexivity.
  - rewrite bytesToNibbles_cons. split.
    + rewrite nibblesToBytes_cons2, IH1.
      now rewrite split_join_byte.
    + destruct (byte_halves b Hb) as [-> ->].
      simpl. now rewrite IH2.
Qed.

Lemma nibbles_of_bytes_roundtrip_witness :
  Forall is_byte [0x41; 0xff; 0x00; 0x5a]
  /\ nibblesToBytes (bytesToNibbles [0x41; 0xff; 0x00; 0x5a])
     = [0x41; 0xff; 0x00; 0x5a]
  /\ bytesToNibbles [0x41; 0xff; 0x00; 0x5a] = [4; 1; 15; 15; 0; 0; 5; 10].
Proof.
  assert (H : Forall is_byte [0x41; 0xff; 0x00; 0x5a])
    by (repeat constructor; unfold is_byte; lia).
  split; [exact H|].
  exact (nibbles_of_bytes_roundtrip [0x41; 0xff; 0x00; 0x5a] H).
Defined.

Lemma pack_drop_odd ns x :
  Nat.Even (length ns) -> pack (ns ++ [x]) = pack ns.
Proof.
  revert ns. apply (pair_induction
    (fun ns => Nat.Even (length ns) -> pack (ns ++ [x]) = pack ns)).
  - reflexivity.
  - intros y [k Hk]. simpl in Hk. lia.
  - intros y z rest IH [k Hk]. simpl in *. f_equal. apply IH.
    exists (k - 1)%nat. lia.
Qed.

Lemma pack_masked ns : pack (map (fun n => n mod 16) ns) = pack ns.
Proof.
  revert ns. apply pair_induction; try reflexivity.
  intros hi lo rest IH. simpl. rewrite IH. f_equal.
  rewrite !band_0xf, !Z.mod_mod by lia. reflexivity.
Qed.

Lemma nibbles_roundtrip_even ns :
  Nat.Even (length ns) -> Forall is_nibble ns ->
  bytesToNibbles (nibblesToBytes ns) = ns.
Proof.
  revert ns. apply (pair_induction
    (fun ns => Nat.Even (length ns) -> Forall is_nibble ns ->
               bytesToNibbles (nibblesToBytes ns) = ns)).
  - reflexivity.
  - intros y [k Hk]. simpl in Hk. lia.
  - intros hi lo rest IH [k Hk] Hall.
    inversion Hall as [|? ? Hhi Hall']; subst.
    inversion Hall' as [|? ? Hlo Hrest]; subst.
    rewrite nibblesToBytes_cons2, bytesToNibbles_cons.
    destruct (join_split_nibbles hi lo Hhi Hlo) as [-> ->].
    f_equal. f_equal. apply IH; [|exact Hrest].
    exists (k - 1)%nat. simpl in Hk. lia.
Qed.

(** C10. [bytesToNibbles (nibblesToBytes ns)] returns [ns] exactly when
    [ns] has even length and every entry is a nibble (0..15).  Outside
    these conditions the input is not reproduced: after an even-length
    prefix a last unpaired entry is dropped by [nibblesToBytes], and
    every entry is used only through its low four bits. *)
Theorem bytes_of_nibbles_roundtrip (ns : list Z) :
  (Nat.Even (length ns) /\ Forall is_nibble ns
   <-> bytesToNibbles (nibblesToBytes ns) = ns)
  /\ (forall x, Nat.Even (length ns) ->
                nibblesToBytes (ns ++ [x]) = nibblesToBytes ns)
  /\ nibblesToBytes (map (fun n => n mod 16) ns) = nibblesToBytes ns.
Proof.
  split; [split|split].
  - intros [Hev Hall]. now apply nibbles_roundtrip_even.
  - intros E. split.
    + exists (length (nibblesToBytes ns)).
      rewrite <- E at 1. apply bytesToNibbles_length.
    + rewrite <- E. apply bytesToNibbles_nibbles.
  - intros x Hev. rewrite !nibblesToBytes_pack. f_equal.
    now apply pack_drop_odd.
  - rewrite !nibblesToBytes_pack. f_equal. apply pack_masked.
Qed.

Lemma bytes_of_nibbles_roundtrip_witness :
  bytesToNibbles (nibblesToBytes [4; 1; 15; 0]) = [4; 1; 15; 0].
Proof.
  apply (proj1 (bytes_of_nibbles_roundtrip [4; 1; 15; 0])).
  split.
  - exists 2%nat. reflexivity.
  - repeat constructor; unfold is_nibble; lia.
Defined.

Lemma idx_nth_error (l : list Z) i :
  (i < length l)%nat -> nth_error l i = Some (idx l i).
Proof. intros H. unfold idx. now apply nth_error_nth'. Qed.

Lemma magic_mismatch_iff bytes :
  (4 <= length bytes)%nat ->
  magic_mismatch bytes = true
  <-> exists i, (i < 4)%nat /\ nth_error bytes i <> nth_error MAGIC i.
Proof.
  intros Hlen. unfold magic_mismatch. rewrite existsb_exists.
  split.
  - intros (i & Hin & Hne). apply in_seq in Hin.
    exists i. split; [lia|].
    rewrite !idx_nth_error by (simpl; lia).
    apply negb_true_iff, Z.eqb_neq in Hne. congruence.
  - intros (i & Hi & Hne).
    exists i. split; [apply in_seq; lia|].
    rewrite !idx_nth_error in Hne by (simpl; lia).
    apply negb_true_iff, Z.eqb_neq. congruence.
Qed.

(** C3. [parseHeader] returns null exactly when its input has fewer
    than 16 entries or one of the first four differs from the magic
    bytes 0x41 0x43 0x53 0x54; for every other input it returns a
    header. *)
Theorem parseHeader_null_iff (bytes : list Z) :
  (parseHeader bytes = None
   <-> (length bytes < 16)%nat
       \/ exists i, (i < 4)%nat
                    /\ nth_error bytes i
                       <> nth_error [0x41; 0x43; 0x53; 0x54] i)
  /\ (parseHeader bytes <> None -> exists h, parseHeader bytes = Some h).
Proof.
  split.
  - unfold parseHeader, HEADER_LEN.
    destruct (Z.ltb_spec (Z.of_nat (length bytes)) 16) as [Hlt|Hge].
    + split; [left; lia | reflexivity].
    + pose proof (magic_mismatch_iff bytes ltac:(lia)) as M.
      unfold MAGIC in M.
      destruct (magic_mismatch bytes).
      * split; [intros _; right; now apply M | reflexivity].
      * split; [discriminate|].
        intros [Hs|He]; [lia|]. apply M in He. discriminate.
  - destruct (parseHeader bytes) as [h|]; [eauto | congruence].
Qed.

(** A declared length below 2^31 comes back unchanged. *)
Lemma parse_build_below_2_31 ty plen w h :
  is_byte ty -> 0 <= plen < 2^31 -> 0 <= w < 2^16 -> 0 <= h < 2^16 ->
  parseHeader (buildHeader ty plen w h)
  = Some {| type := ty; payloadLen := plen; imgW := w; imgH := h |}.
Proof.
  unfold is_byte. intros Hty Hp Hw Hh. rewrite parse_build.
  rewrite (Z.mod_small ty), (toInt32_id plen), (toInt32_id w),
    (toInt32_id h), (Z.mod_small w), (Z.mod_small h) by lia.
  reflexivity.
Qed.

(** A declared length from 2^31 up comes back lowered by 2^32. *)
Lemma parse_build_from_2_31 ty plen w h :
  is_byte ty -> 2^31 <= plen < 2^32 -> 0 <= w < 2^16 -> 0 <= h < 2^16 ->
  parseHeader (buildHeader ty plen w h)
  = Some {| type := ty; payloadLen := plen - 2^32; imgW := w; imgH := h |}.
Proof.
  unfold is_byte. intros Hty Hp Hw Hh. rewrite parse_build.
  rewrite (Z.mod_small ty), (toInt32_id w),
    (toInt32_id h), (Z.mod_small w), (Z.mod_small h) by lia.
  do 2 f_equal. unfold toInt32.
  replace (plen + 2^31) with (plen - 2^31 + 1 * 2^32) by lia.
  rewrite Z_mod_plus_full, Z.mod_small; lia.
Qed.

(** C2, at the header of a text packet that declares 2^31 payload
    bytes: the bytes on the wire are 0x80 0x00 0x00 0x00, and
    [parseHeader] reads them back as the negative number -2^31 instead
    of the declared length. *)
Theorem parse_build_header_2_31 :
  buildHeader 0x54 2147483648 0 0
  = [0x41; 0x43; 0x53; 0x54; 0x54; 0x80; 0; 0; 0; 0; 0; 0; 0; 0; 0; 0]
  /\ parseHeader (buildHeader 0x54 2147483648 0 0)
     = Some {| type := 0x54; payloadLen := -2147483648;
               imgW := 0; imgH := 0 |}.
Proof. split; vm_compute; reflexivity. Qed.

End CodecTheorems.

(* ================================================================== *)
(** ** The symbol detector *)
(* ================================================================== *)

Module DetectorFacts.
Import Detector.
Local Open Scope Q_scope.

Lemma Qgtb_true x y : Qgtb x y = true <-> y < x.
Proof.
  unfold Qgtb. rewrite negb_true_iff.
  split.
  - intros H. apply Qnot_le_lt. intros Hle.
    apply Qle_bool_iff in Hle. congruence.
  - intros H. destruct (Qle_bool x y) eqn:E; [|reflexivity].
    apply Qle_bool_iff in E. lra.
Qed.

Lemma Qgtb_false x y : Qgtb x y = false <-> x <= y.
Proof.
  unfold Qgtb. rewrite negb_false_iff. apply Qle_bool_iff.
Qed.

(** What the [forEach] loop has found after running over [ms] from
    index [i] with [best] in hand: either nothing beat [best], or the
    result is the first entry of [ms] that is strictly above everything
    before it and not below anything after it. *)
Lemma pickLoop_spec ms :
  forall i best,
    let r := pickLoop ms i best in
    (forall k m, nth_error ms k = Some m -> m <= snd r)
    /\ ((r = best)
        \/ (exists j,
               nth_error ms j = Some (snd r)
               /\ fst r = (i + Z.of_nat j)%Z
               /\ snd best < snd r
               /\ forall k m, (k < j)%nat -> nth_error ms k = Some m ->
                              m < snd r)).
Proof.
  induction ms as [|m ms IH]; intros i best; cbn zeta.
  - split; [intros [|k] m H; discriminate | left; reflexivity].
  - cbn [pickLoop].
    specialize (IH (i + 1)%Z (pickStep best i m)).
    cbn zeta in IH. destruct IH as [Hall Hcase].
    set (r := pickLoop ms (i + 1)%Z (pickStep best i m)) in *.
    unfold pickStep in Hcase.
    assert (Hm : m <= snd r).
    { destruct Hcase as [E | (j & Hj & _ & Hlt & _)];
        unfold pickStep in *;
        destruct (Qgtb m (snd best)) eqn:G.
      - fold r in E. rewrite E. cbn. lra.
      - fold r in E. rewrite E. apply Qgtb_false in G. exact G.
      - cbn in Hlt. lra.
      - apply Qgtb_false in G. lra. }
    split.
    + intros [|k] m' H; cbn in H.
      * injection H as <-. exact Hm.
      * eapply Hall; eauto.
    + destruct (Qgtb m (snd best)) eqn:G.
      * apply Qgtb_true in G. right.
        destruct Hcase as [E | (j & Hj & Hf & Hlt & Hbefore)].
        -- exists 0%nat. rewrite E. cbn.
           repeat split; [f_equal; lia | lra | intros k m' Hk; lia].
        -- exists (S j). cbn in Hlt |- *.
           repeat split; [exact Hj | lia | lra |].
           intros [|k] m' Hk H; cbn in H.
           ++ injection H as <-. exact Hlt.
           ++ eapply Hbefore; eauto. lia.
      * apply Qgtb_false in G.
        destruct Hcase as [E | (j & Hj & Hf & Hlt & Hbefore)].
        -- left. exact E.
        -- right. exists (S j). cbn.
           repeat split; [exact Hj | lia | exact Hlt |].
           intros [|k] m' Hk H; cbn in H.
           ++ injection H as <-. lra.
           ++ eapply Hbefore; eauto. lia.
Qed.

(** The two outcomes of [pickBest]. *)
Lemma pickBest_spec ms :
  (forall k m, nth_error ms k = Some m -> m <= magnitude (pickBest ms))
  /\ ((symbol (pickBest ms) = (-1)%Z /\ magnitude (pickBest ms) = 0)
      \/ (exists j,
             symbol (pickBest ms) = Z.of_nat j
             /\ nth_error ms j = Some (magnitude (pickBest ms))
             /\ 0 < magnitude (pickBest ms)
             /\ forall k m, (k < j)%nat -> nth_error ms k = Some m ->
                            m < magnitude (pickBest ms))).
Proof.
  pose proof (pickLoop_spec ms 0%Z ((-1)%Z, 0)) as H. cbn zeta in H.
  unfold pickBest. cbn [symbol magnitude].
  destruct H as [Hall [E | (j & Hj & Hf & Hlt & Hbefore)]].
  - split; [exact Hall|]. left. rewrite E. split; reflexivity.
  - split; [exact Hall|]. right. exists j.
    repeat split; [rewrite Hf; lia | exact Hj | exact Hlt | exact Hbefore].
Qed.

(** The returned symbol is [-1] or an index into the magnitudes. *)
Lemma pickBest_symbol_range ms :
  (-1 <= symbol (pickBest ms) < Z.of_nat (length ms))%Z.
Proof.
  destruct (pickBest_spec ms) as [_ [[E _] | (j & Hs & Hj & _)]].
  - rewrite E. lia.
  - rewrite Hs.
    assert (j < length ms)%nat
      by (apply nth_error_Some; congruence).
    lia.
Qed.

Lemma detectSymbol_symbol_range cfg a det :
  detectSymbol cfg a = Some det -> (-1 <= symbol det <= 15)%Z.
Proof.
  destruct a as [an|]; [|discriminate].
  cbn. intros [= <-].
  match goal with
  | |- context [symbol (pickBest ?ms)] =>
      pose proof (pickBest_symbol_range ms) as R;
      assert (L : length ms = 16%nat) by reflexivity
  end.
  rewrite L in R. lia.
Qed.

End DetectorFacts.

Module DetectorTheorems.
Import Detector DetectorFacts.
Local Open Scope Q_scope.

(** C9, as the code has it. For every vector of 16 channel magnitudes
    of which at least one is strictly positive, the detector returns the
    index of the largest magnitude, the lowest such index when several
    channels share it, so a symbol in 0..15, together with that
    magnitude and the vector itself.  When no magnitude is positive (a
    silent spectrum) it returns the symbol [-1] with magnitude 0. *)
Theorem best_symbol_argmax (ms : list Q) :
  length ms = 16%nat ->
  mags (pickBest ms) = ms
  /\ ((exists m, In m ms /\ 0 < m) ->
      (0 <= symbol (pickBest ms) <= 15)%Z
      /\ nth_error ms (Z.to_nat (symbol (pickBest ms)))
         = Some (magnitude (pickBest ms))
      /\ (forall k m, nth_error ms k = Some m ->
                      m <= magnitude (pickBest ms))
      /\ (forall k m, (Z.of_nat k < symbol (pickBest ms))%Z ->
                      nth_error ms k = Some m ->
                      m < magnitude (pickBest ms)))
  /\ ((forall m, In m ms -> m <= 0) ->
      symbol (pickBest ms) = (-1)%Z /\ magnitude (pickBest ms) = 0).
Proof.
  intros Hlen. split; [reflexivity|].
  pose proof (pickBest_symbol_range ms) as R. rewrite Hlen in R.
  destruct (pickBest_spec ms) as
    [Hall [[Es Em] | (j & Hs & Hj & Hpos & Hbefore)]].
  - split.
    + intros (m & Hin & Hm).
      apply In_nth_error in Hin. destruct Hin as [k Hk].
      specialize (Hall k m Hk). rewrite Em in Hall. lra.
    + intros _. split; assumption.
  - split.
    + intros _. rewrite Hs, Nat2Z.id.
      repeat split; try lia; try assumption.
      intros k m Hk. apply Hbefore. lia.
    + intros Hnone.
      assert (magnitude (pickBest ms) <= 0)
        by (eapply Hnone, nth_error_In; eauto).
      lra.
Qed.

Lemma best_symbol_argmax_witness :
  length Examples.twoPeaks = 16%nat
  /\ (exists m, In m Examples.twoPeaks /\ 0 < m)
  /\ (0 <= symbol (pickBest Examples.twoPeaks) <= 15)%Z
  /\ nth_error Examples.twoPeaks
               (Z.to_nat (symbol (pickBest Examples.twoPeaks)))
     = Some (magnitude (pickBest Examples.twoPeaks)).
Proof.
  assert (P : exists m, In m Examples.twoPeaks /\ 0 < m).
  { exists (1 # 10). split; [right; left; reflexivity | reflexivity]. }
  split; [reflexivity|]. split; [exact P|].
  destruct (best_symbol_argmax Examples.twoPeaks eq_refl)
    as [_ [H _]].
  destruct (H P) as (Hr & Hn & _). split; assumption.
Defined.

(** C9 fails on a silent spectrum: all 16 magnitudes are 0, every one
    of them is a largest magnitude, the lowest index is 0, and the
    detector returns [-1]. *)
Lemma best_symbol_of_silence :
  length Examples.zeros = 16%nat
  /\ Forall (fun m => 0 <= m <= 1) Examples.zeros
  /\ symbol (pickBest Examples.zeros) = (-1)%Z
  /\ ~ (0 <= symbol (pickBest Examples.zeros) <= 15)%Z
  /\ option_map symbol (detectSymbol Examples.cfg (Some Examples.silence))
     = Some (-1)%Z.
Proof.
  split; [reflexivity|].
  split; [repeat constructor; discriminate|].
  split; [reflexivity|].
  split; [cbn; lia|].
  vm_compute. reflexivity.
Qed.

End DetectorTheorems.

(* ================================================================== *)
(** ** The majority vote *)
(* ================================================================== *)

Module VoteFacts.
Import Receiver Spec.

Lemma incrAt_length c i : length (incrAt c i) = length c.
Proof.
  revert i. induction c as [|x c IH]; intros [|i]; simpl; auto.
Qed.

Lemma incrAt_nth c i k :
  (i < length c)%nat ->
  nth k (incrAt c i) 0 = nth k c 0 + (if Nat.eqb k i then 1 else 0).
Proof.
  revert i k. induction c as [|x c IH]; intros i k Hi; simpl in Hi.
  - lia.
  - destruct i as [|i], k as [|k]; simpl; try lia.
    apply IH. lia.
Qed.

(** Counting a window into an array whose indices cover every sample
    (or miss only [-1]) gives, entry by entry, the number of
    occurrences. *)
Lemma tally_from valid :
  forall c,
    Forall (fun x => -1 <= x < len c) valid ->
    exists c',
      fold_left countsIncr valid (Some c) = Some c'
      /\ length c' = length c
      /\ forall k, (k < length c)%nat ->
           nth k c' 0 = nth k c 0 + Z.of_nat (occ (Z.of_nat k) valid).
Proof.
  induction valid as [|x valid IH]; intros c Hall.
  - exists c. repeat split. intros k _. simpl. lia.
  - inversion Hall as [|? ? Hx Hrest]; subst.
    cbn [fold_left countsIncr].
    destruct (Z.ltb_spec x 0) as [Hneg|Hpos].
    + destruct (IH c Hrest) as (c' & E & L & N).
      exists c'. repeat split; try assumption.
      intros k Hk. rewrite (N k Hk). unfold occ.
      rewrite count_occ_cons_neq by lia. reflexivity.
    + destruct (Z.ltb_spec x (len c)) as [Hin|Hout]; [|lia].
      unfold len in Hin.
      assert (Hrest' : Forall (fun x0 => -1 <= x0 < len (incrAt c (Z.to_nat x)))
                              valid).
      { unfold len in *. rewrite incrAt_length. exact Hrest. }
      destruct (IH _ Hrest') as (c' & E & L & N).
      rewrite incrAt_length in L.
      exists c'. repeat split; try assumption.
      intros k Hk. rewrite N by (rewrite incrAt_length; exact Hk).
      rewrite incrAt_nth by lia. unfold occ.
      destruct (Nat.eqb_spec k (Z.to_nat x)) as [->|Hne].
      * rewrite count_occ_cons_eq by lia. lia.
      * rewrite count_occ_cons_neq by lia. lia.
Qed.

Lemma tally_spec valid :
  Forall (fun x => -1 <= x <= 15) valid ->
  exists counts,
    tally valid = Some counts
    /\ length counts = 16%nat
    /\ forall k, (k < 16)%nat ->
         nth k counts 0 = Z.of_nat (occ (Z.of_nat k) valid).
Proof.
  intros Hall.
  destruct (tally_from valid (repeat 0 16)) as (c' & E & L & N).
  { eapply Forall_impl; [|exact Hall]. cbn. intros x Hx. lia. }
  exists c'. repeat split; try assumption.
  intros k Hk. rewrite (N k Hk).
  replace (nth k (repeat 0 16) 0) with 0; [lia|].
  symmetry. apply nth_repeat.
Qed.

(** [Math.max] of a non-empty array bounds every entry and is one of
    them. *)
Lemma fold_max_spec t :
  forall x,
    x <= fold_left Z.max t x
    /\ (forall y, In y t -> y <= fold_left Z.max t x)
    /\ (fold_left Z.max t x = x \/ In (fold_left Z.max t x) t).
Proof.
  induction t as [|y t IH]; intros x; simpl.
  - repeat split; [lia | tauto | now left].
  - destruct (IH (Z.max x y)) as (H1 & H2 & H3).
    repeat split.
    + lia.
    + intros z [<-|Hz]; [lia | now apply H2].
    + destruct H3 as [E|Hin]; [|now right; right].
      destruct (Z.max_spec x y) as [[_ M]|[_ M]].
      * right. left. rewrite E. lia.
      * left. rewrite E. lia.
Qed.

Lemma maxOf_spec c :
  c <> [] ->
  In (maxOf c) c /\ forall y, In y c -> y <= maxOf c.
Proof.
  destruct c as [|x t]; [congruence|]. intros _. simpl.
  destruct (fold_max_spec t x) as (H1 & H2 & H3).
  split.
  - destruct H3 as [->|Hin]; [now left | now right].
  - intros y [<-|Hy]; [exact H1 | now apply H2].
Qed.

(** [indexOf] finds the first position of a value that occurs. *)
Lemma indexOfFrom_spec c v :
  forall i,
    In v c ->
    exists k,
      (k < length c)%nat
      /\ indexOfFrom c v i = i + Z.of_nat k
      /\ nth k c 0 = v
      /\ forall j, (j < k)%nat -> nth j c 0 <> v.
Proof.
  induction c as [|x c IH]; intros i Hin; [destruct Hin|].
  simpl. destruct (Z.eqb_spec x v) as [->|Hne].
  - exists 0%nat. repeat split; simpl; try lia.
  - destruct Hin as [->|Hin]; [congruence|].
    destruct (IH (i + 1) Hin) as (k & Hk & E & Hn & Hfirst).
    exists (S k). repeat split; simpl; try lia; try assumption.
    intros [|j] Hj; [exact Hne | apply Hfirst; lia].
Qed.

(** The value pushed for a window of samples in [-1 .. 15] is the
    most frequent symbol value, the lowest among equally frequent
    ones. *)
Lemma winnerOf_majority valid :
  Forall (fun x => -1 <= x <= 15) valid ->
  is_majority valid (winnerOf valid).
Proof.
  intros Hall.
  destruct (tally_spec valid Hall) as (counts & E & L & N).
  unfold winnerOf. rewrite E.
  assert (Hne : counts <> []) by (destruct counts; [discriminate|congruence]).
  destruct (maxOf_spec counts Hne) as [Hin Hmax].
  destruct (indexOfFrom_spec counts (maxOf counts) 0 Hin)
    as (k & Hk & Ei & Hn & Hfirst).
  unfold indexOf. rewrite Ei, Z.add_0_l. rewrite L in Hk.
  assert (Hocc : forall j, (j < 16)%nat ->
            Z.of_nat (occ (Z.of_nat j) valid) <= Z.of_nat (occ (Z.of_nat k) valid)).
  { intros j Hj. rewrite <- (N j Hj), <- (N k Hk), Hn.
    apply Hmax, nth_In. lia. }
  repeat split; try lia.
  - intros v Hv.
    specialize (Hocc (Z.to_nat v) ltac:(lia)).
    rewrite Z2Nat.id in Hocc by lia. lia.
  - intros v Hv.
    specialize (Hocc (Z.to_nat v) ltac:(lia)).
    specialize (Hfirst (Z.to_nat v) ltac:(lia)).
    rewrite (N (Z.to_nat v)), <- Hn, (N k) in Hfirst by lia.
    rewrite Z2Nat.id in Hocc, Hfirst by lia. lia.
Qed.


Lemma windowInRange_valid window :
  windowInRange window ->
  Forall (fun x => -1 <= x <= 15) (validSamples window).
Proof.
  induction window as [|[x|] t IH]; intros H; cbn [validSamples].
  - constructor.
  - constructor; [apply H; now left|].
    apply IH. intros y Hy. apply H. now right.
  - apply IH. intros y Hy. apply H. now right.
Qed.



Lemma windowInRange_samples s :
  RxSpec.samplesInRange s <-> windowInRange (Receiver.sampleBuf s).
Proof.
  unfold RxSpec.samplesInRange. split; [|apply windowInRange_valid].
  induction (Receiver.sampleBuf s) as [|[x|] t IH];
    cbn [validSamples]; intros H y Hy.
  - destruct Hy.
  - inversion H; subst. destruct Hy as [Hy|Hy].
    + now injection Hy as <-.
    + now apply IH.
  - destruct Hy as [Hy|Hy]; [discriminate | now apply IH].
Qed.


End VoteFacts.

(* ================================================================== *)
(** ** The receiver state machine *)
(* ================================================================== *)

Module ReceiverFacts.
Import JS Packet Detector Receiver Spec RxSpec DetectorFacts.
Local Open Scope Q_scope.

(** A tick with a spectrum shows it and then runs the branch of the
    current state. *)
Lemma tick_with_detection cfg a now s det :
  detectSymbol cfg a = Some det ->
  tick cfg a now s
  = emit (display cfg a det s) s
    ;; (fun s =>
          match rxState s with
          | RX_IDLE =>
              tickIdle (symDur cfg) (thresh cfg) now (getPreambleMag a) s
          | RX_PREAMBLE => tickPreamble now s
          | RX_DATA => tickData (symDur cfg) (thresh cfg) now det s
          end).
Proof. intros H. unfold tick. rewrite H. reflexivity. Qed.

(** Without the analyser a tick does nothing. *)
Lemma tick_without_analyser cfg now s : tick cfg None now s = (s, []).
Proof. reflexivity. Qed.

Lemma emit_andThen es s k :
  emit es s ;; k = (fst (k s), es ++ snd (k s)).
Proof. unfold andThen, emit. now destruct (k s). Qed.

Lemma resetRxState_idle s : resetRxState s = (idleSession s, [SetRxImgProgReset]).
Proof. reflexivity. Qed.

(** The even prefix taken by [finalizePacket]. *)
Lemma trimNib_firstn s :
  trimNib s
  = firstn (2 * (length (rxNibbles s) / 2)) (rxNibbles s).
Proof.
  unfold trimNib, slice, len.
  set (n := length (rxNibbles s)).
  assert (E : (Z.of_nat n / 2 * 2)%Z = Z.of_nat (2 * (n / 2))).
  { rewrite Nat2Z.inj_mul, Nat2Z.inj_div. simpl Z.of_nat. lia. }
  rewrite E.
  assert (L : (2 * (n / 2) <= n)%nat) by (apply Nat.Div0.mul_div_le).
  change (0 <? 0)%Z with false. cbv iota.
  destruct (Z.ltb_spec (Z.of_nat (2 * (n / 2))) 0); [lia|].
  rewrite Z.min_l by lia. rewrite Z.min_l by lia.
  rewrite Z.sub_0_r, Z.max_l by lia.
  rewrite Nat2Z.id. reflexivity.
Qed.

Lemma trimNib_length s :
  length (trimNib s) = (2 * (length (rxNibbles s) / 2))%nat.
Proof.
  rewrite trimNib_firstn, length_firstn.
  apply Nat.min_l, Nat.Div0.mul_div_le.
Qed.

(** For a non-negative parsed length the payload is the bytes after
    the header, at most as many as the header declares. *)
Lemma payloadOf_clamped allBytes hdr :
  (0 <= payloadLen hdr)%Z -> (16 <= length allBytes)%nat ->
  payloadOf allBytes hdr
  = firstn (Z.to_nat (payloadLen hdr)) (skipn 16 allBytes).
Proof.
  intros Hp Hl. unfold payloadOf, slice, HEADER_LEN.
  change (16 <? 0)%Z with false. cbv iota.
  destruct (Z.ltb_spec (16 + payloadLen hdr) 0); [lia|].
  rewrite (Z.min_l 16) by lia.
  change (Z.to_nat 16) with 16%nat.
  destruct (Z.le_ge_cases (16 + payloadLen hdr)
                          (Z.of_nat (length allBytes))) as [Hle|Hge].
  - rewrite Z.min_l by lia. rewrite Z.max_l by lia.
    f_equal. lia.
  - rewrite Z.min_r by lia. rewrite Z.max_l by lia.
    rewrite !firstn_all2; try reflexivity; rewrite length_skipn; lia.
Qed.

(** [finalizePacket] on a packet whose header parses. *)
Lemma finalizePacket_parsed s hdr :
  (32 <= len (trimNib s))%Z ->
  parseHeader (nibblesToBytes (trimNib s)) = Some hdr ->
  finalizePacket s
  = (idleSession s,
     deliver hdr (payloadOf (nibblesToBytes (trimNib s)) hdr)
     ++ [SetRxImgProgReset; SetTimeoutListening 3000]).
Proof.
  intros Hlen Hparse. unfold finalizePacket.
  destruct (Z.ltb_spec (len (trimNib s)) (HEADER_LEN * 2)) as [H|H];
    [unfold HEADER_LEN in H; lia|].
  rewrite Hparse. unfold andThen, emit, resetRxState.
  rewrite <- app_assoc. reflexivity.
Qed.

Lemma validSamples_app b1 b2 :
  validSamples (b1 ++ b2) = validSamples b1 ++ validSamples b2.
Proof.
  induction b1 as [|[x|] b1 IH]; simpl; [reflexivity | now rewrite IH | exact IH].
Qed.



(** Samples come from the detector, so they stay in [-1 .. 15]. *)
Lemma pushSample_in_range cfg a det s :
  detectSymbol cfg a = Some det ->
  samplesInRange s ->
  samplesInRange (pushSample (thresh cfg) det s).
Proof.
  intros Hdet Hs. unfold samplesInRange, pushSample in *.
  destruct (Qgtb _ _); cbn [sampleBuf set_sampleBuf set_silenceCount];
    rewrite validSamples_app; apply Forall_app; split; try assumption.
  - repeat constructor; apply (detectSymbol_symbol_range _ _ _ Hdet).
  - constructor.
Qed.

End ReceiverFacts.

Module ReceiverTheorems.
Import JS Packet Detector Receiver Spec RxSpec.
Import DetectorFacts VoteFacts ReceiverFacts.
Local Open Scope Q_scope.

(** C6. When fewer than 32 nibbles remain after the accumulator has
    been cut to even length, [finalizePacket] reports INCOMPLETE with
    the number of whole bytes, resets the session to IDLE with an empty
    accumulator, schedules the return to the listening status, and does
    nothing else: no header is parsed and no payload delivered. *)
Theorem finalize_incomplete (s : Session) :
  (len (trimNib s) < 32)%Z ->
  Nat.Even (length (trimNib s))
  /\ finalizePacket s
     = (idleSession s,
        [SetRxStatus warn (MsgIncomplete (len (trimNib s) / 2)%Z);
         SetRxImgProgReset;
         SetTimeoutListening 3000])
  /\ rxState (fst (finalizePacket s)) = RX_IDLE
  /\ rxNibbles (fst (finalizePacket s)) = [].
Proof.
  intros Hshort.
  assert (E : finalizePacket s
              = (idleSession s,
                 [SetRxStatus warn (MsgIncomplete (len (trimNib s) / 2)%Z);
                  SetRxImgProgReset;
                  SetTimeoutListening 3000])).
  { unfold finalizePacket.
    destruct (Z.ltb_spec (len (trimNib s)) (HEADER_LEN * 2)) as [H|H];
      [reflexivity | unfold HEADER_LEN in H; lia]. }
  split; [|rewrite E; repeat split].
  exists (length (rxNibbles s) / 2)%nat. apply trimNib_length.
Qed.

Lemma finalize_incomplete_witness :
  (len (trimNib Examples.holdingShort) < 32)%Z
  /\ finalizePacket Examples.holdingShort
     = (idleSession Examples.holdingShort,
        [SetRxStatus warn (MsgIncomplete 15);
         SetRxImgProgReset;
         SetTimeoutListening 3000]).
Proof.
  assert (H : (len (trimNib Examples.holdingShort) < 32)%Z)
    by (vm_compute; reflexivity).
  split; [exact H|].
  exact (proj1 (proj2 (finalize_incomplete Examples.holdingShort H))).
Defined.

(** The elapsed time the receiver tests is the rounded difference of two
    doubles.  With the data phase started at the double nearest
    1540.3 ms and the clock at the double nearest 46540.3 ms the
    difference computed is 45000 (the two doubles differ by
    45000 + 13/2^42): the tick does not time out and goes on to take its
    sample. *)
Lemma elapsed_time_is_rounded :
  (Examples.t46540_3 - Examples.t1540_3)%float = 45000%float
  /\ sampleBuf
       (fst (tick Examples.cfg (Some Examples.symbol3Tone)
                  Examples.t46540_3
                  (Examples.receivingSince Examples.t1540_3)))
     = [Some 3; Some 7; Some 3; None; Some 3]%Z
  /\ rxState
       (fst (tick Examples.cfg (Some Examples.symbol3Tone)
                  Examples.t46540_3
                  (Examples.receivingSince Examples.t1540_3)))
     = RX_DATA.
Proof. repeat split; vm_compute; reflexivity. Qed.

(** C8. On a tick in the DATA state that has a spectrum and on which
    the elapsed time since the data phase started, computed as the
    program computes it (the double [now - rxDataStart]), exceeds
    45000 ms, the receiver shows the spectrum, emits the TIMEOUT status
    once, resets the session to IDLE, schedules the return to the
    listening status, and does nothing else: no sample is taken and no
    window is closed. *)
Theorem data_timeout (cfg : Config) (a : option Analyser) (now : float)
    (s : Session) (det : Detection) :
  rxState s = RX_DATA ->
  detectSymbol cfg a = Some det ->
  (45000 <? now - rxDataStart s)%float = true ->
  tick cfg a now s
  = (idleSession s,
     display cfg a det s
     ++ [SetRxStatus warn MsgTimeout;
         SetRxImgProgReset;
         SetTimeoutListening 2000])
  /\ timeouts (snd (tick cfg a now s)) = 1%nat
  /\ rxState (fst (tick cfg a now s)) = RX_IDLE.
Proof.
  intros Hst Hdet Hlate.
  assert (E : tick cfg a now s
              = (idleSession s,
                 display cfg a det s
                 ++ [SetRxStatus warn MsgTimeout;
                     SetRxImgProgReset;
                     SetTimeoutListening 2000])).
  { rewrite (tick_with_detection _ _ _ _ _ Hdet), emit_andThen, Hst.
    unfold tickData.
    rewrite Hlate. reflexivity. }
  rewrite E. repeat split.
Qed.

Lemma data_timeout_witness :
  tick Examples.cfg (Some Examples.symbol3Tone) 46541 Examples.receiving
  = (idleSession Examples.receiving,
     display Examples.cfg (Some Examples.symbol3Tone)
             (pickBest (mags_of Examples.cfg Examples.symbol3Tone))
             Examples.receiving
     ++ [SetRxStatus warn MsgTimeout;
         SetRxImgProgReset;
         SetTimeoutListening 2000]).
Proof.
  refine (proj1 (data_timeout Examples.cfg (Some Examples.symbol3Tone)
                   46541 Examples.receiving _ eq_refl eq_refl _)).
  reflexivity.
Defined.

End ReceiverTheorems.

Module SyncTheorems.
Import JS Packet Detector Receiver Spec RxSpec.
Import DetectorFacts ReceiverFacts.
Local Open Scope Q_scope.



(** The times of the waiting state are doubles.  A preamble first seen
    at the double nearest 1000.1 ms and confirmed at 1125 ms gives the
    data start the double nearest 1540.1 ms.  A preamble first seen at
    the double nearest 57.4 ms is not confirmed by the tick at the
    double nearest 177.4 ms: the difference the program computes is
    120, which does not exceed the symbol duration, and the receiver
    stays IDLE. *)
Lemma data_start_is_rounded :
  preambleEndsAt
    (fst (tick Examples.cfg (Some Examples.preambleTone) 1125
               (Examples.idleSeenAt Examples.t1000_1)))
  = Examples.t1540_1
  /\ (Examples.t177_4 - Examples.t57_4)%float = 120%float
  /\ fst (tick Examples.cfg (Some Examples.preambleTone)
               Examples.t177_4 (Examples.idleSeenAt Examples.t57_4))
     = Examples.idleSeenAt Examples.t57_4.
Proof. repeat split; vm_compute; reflexivity. Qed.


End SyncTheorems.

Module VoteTheorems.
Import JS Packet Detector Receiver Spec RxSpec.
Import DetectorFacts VoteFacts ReceiverFacts.
Local Open Scope Q_scope.



End VoteTheorems.

Module PayloadTheorems.
Import JS Packet Detector Receiver Spec RxSpec.
Import ReceiverFacts.

(** A header that parses with a non-negative length: the payload
    delivered by [finalizePacket] is the received bytes after the
    header, cut to the declared length when more were received, and all
    of them when fewer were; the only effects are the delivery, the
    reset and the timer. *)
Lemma finalize_payload_clamped s hdr :
  (32 <= len (trimNib s))%Z ->
  parseHeader (nibblesToBytes (trimNib s)) = Some hdr ->
  (0 <= payloadLen hdr)%Z ->
  finalizePacket s
  = (idleSession s,
     deliver hdr (firstn (Z.to_nat (payloadLen hdr))
                         (skipn 16 (nibblesToBytes (trimNib s))))
     ++ [SetRxImgProgReset; SetTimeoutListening 3000]).
Proof.
  intros Hlen Hparse Hpos.
  rewrite (finalizePacket_parsed s hdr Hlen Hparse).
  rewrite payloadOf_clamped; [reflexivity | exact Hpos |].
  unfold parseHeader, HEADER_LEN in Hparse.
  destruct (Z.ltb_spec (Z.of_nat (length (nibblesToBytes (trimNib s)))) 16);
    [discriminate | lia].
Qed.

(** C7, at a text packet of 30 received bytes whose header declares
    0xFFFFFFEC payload bytes: the header parses, with the length read
    as -20; 14 bytes follow the header, all of them within the declared
    length; the payload delivered is only the first 10 of them. *)
Theorem finalize_declared_length_from_2_31 :
  nibblesToBytes (trimNib Examples.holdingLongPacket)
  = Examples.longHeader ++ Examples.received14
  /\ parseHeader (nibblesToBytes (trimNib Examples.holdingLongPacket))
     = Some {| type := TYPE_TEXT; payloadLen := -20;
               imgW := 0; imgH := 0 |}
  /\ finalizePacket Examples.holdingLongPacket
     = (idleSession Examples.holdingLongPacket,
        [SetRxOutputText (firstn 10 Examples.received14);
         SetRxOutputHas;
         SetRxImgSrcNull;
         SetRxStatus ok (MsgTextReceived (firstn 10 Examples.received14));
         SetRxImgProgReset;
         SetTimeoutListening 3000])
  /\ firstn 10 Examples.received14 <> Examples.received14.
Proof.
  split; [vm_compute; reflexivity|].
  split; [vm_compute; reflexivity|].
  split; [vm_compute; reflexivity|].
  vm_compute. discriminate.
Qed.

End PayloadTheorems.

(* ================================================================== *)
(** ** The window holds detector output only *)
(* ================================================================== *)

Module WindowInvariant.
Import JS Packet Detector Receiver Spec RxSpec.
Import DetectorFacts ReceiverFacts.
Local Open Scope Q_scope.

Lemma fst_andThen r k : fst (r ;; k) = fst (k (fst r)).
Proof.
  unfold andThen. destruct r as [s es]. cbn [fst].
  now destruct (k s).
Qed.

Lemma finalizePacket_buf s : sampleBuf (fst (finalizePacket s)) = [].
Proof.
  unfold finalizePacket.
  destruct (len (trimNib s) <? HEADER_LEN * 2)%Z; [reflexivity|].
  destruct (parseHeader _); reflexivity.
Qed.

Lemma liveUpdateRxImage_buf s :
  sampleBuf (fst (liveUpdateRxImage s)) = []
  \/ sampleBuf (fst (liveUpdateRxImage s)) = sampleBuf s.
Proof.
  unfold liveUpdateRxImage.
  destruct (len (rxNibbles s) <? HEADER_LEN * 2)%Z; [now right|].
  destruct (parseHeader _) as [hdr|]; [|now right].
  destruct (negb _); [now right|].
  rewrite fst_andThen. cbn [emit fst].
  destruct (len (rxNibbles s) >=? _)%Z; [|now right].
  left. apply finalizePacket_buf.
Qed.

Lemma closeWindow_buf now s : sampleBuf (fst (closeWindow now s)) = [].
Proof.
  unfold closeWindow.
  destruct (len (validSamples (sampleBuf s)) >? 0)%Z.
  - rewrite fst_andThen. reflexivity.
  - destruct (_ && _); [apply finalizePacket_buf|].
    destruct (_ && _); reflexivity.
Qed.

(** Starting from an empty window, every sample the receiver ever
    holds is a value returned by the detector: [-1] or 0..15. *)
Lemma tick_samples_in_range cfg a now s :
  samplesInRange s -> samplesInRange (fst (tick cfg a now s)).
Proof.
  intros Hs.
  destruct (detectSymbol cfg a) as [det|] eqn:Hdet.
  - rewrite (tick_with_detection _ _ _ _ _ Hdet), fst_andThen.
    cbn [emit fst].
    destruct (rxState s).
    + unfold tickIdle.
      destruct (Qgtb (getPreambleMag a) (thresh cfg)); [|exact Hs].
      destruct (falsy (preambleAt s));
        cbn [preambleAt set_preambleAt];
        destruct (_ <? _)%float; exact Hs.
    + unfold tickPreamble.
      destruct (_ <=? _)%float; [constructor | exact Hs].
    + unfold tickData.
      destruct (45000 <? now - rxDataStart s)%float; [constructor|].
      destruct (_ <=? _)%float.
      * unfold samplesInRange. rewrite closeWindow_buf. constructor.
      * now apply (pushSample_in_range cfg a det s).
  - unfold tick. rewrite Hdet. exact Hs.
Qed.

Lemma reset_samples_in_range s : samplesInRange (fst (resetRxState s)).
Proof. constructor. Qed.

End WindowInvariant.


(* ================================================================== *)
(** ** Further properties of the packet codec *)
(* ================================================================== *)

Module CodecExtraFacts.
Import JS Packet Spec JSFacts PacketFacts HeaderFacts.

Lemma toUint8_byte x : is_byte (toUint8 x).
Proof. apply mod256_byte. Qed.

Lemma bytes_roundtrip B :
  Forall is_byte B -> nibblesToBytes (bytesToNibbles B) = B.
Proof.
  induction 1 as [|b B Hb HB IH]; [reflexivity|].
  rewrite bytesToNibbles_cons, nibblesToBytes_cons2, IH.
  now rewrite split_join_byte.
Qed.

Lemma bytesToNibbles_app a b :
  bytesToNibbles (a ++ b) = bytesToNibbles a ++ bytesToNibbles b.
Proof. rewrite !bytesToNibbles_flat_map. apply flat_map_app. Qed.

Lemma pack_app a b :
  Nat.Even (length a) -> pack (a ++ b) = pack a ++ pack b.
Proof.
  revert a. apply (pair_induction
    (fun a => Nat.Even (length a) -> pack (a ++ b) = pack a ++ pack b)).
  - reflexivity.
  - intros x [k Hk]. simpl in Hk. lia.
  - intros x y rest IH [k Hk]. simpl in *. f_equal. apply IH.
    exists (k - 1)%nat. lia.
Qed.

Lemma pack_length ns : length (pack ns) = (length ns / 2)%nat.
Proof.
  revert ns. apply pair_induction; try reflexivity.
  intros x y rest IH. cbn [pack length]. rewrite IH.
  change (S (S (length rest))) with (1 * 2 + length rest)%nat.
  rewrite Nat.div_add_l by lia. reflexivity.
Qed.

Lemma pack_firstn k :
  forall ns, pack (firstn (2 * k) ns) = firstn k (pack ns).
Proof.
  induction k as [|k IH]; intros ns; [reflexivity|].
  replace (2 * S k)%nat with (S (S (2 * k))) by lia.
  destruct ns as [|x [|y rest]]; try reflexivity.
  cbn [firstn pack]. now rewrite IH.
Qed.

Lemma nibblesToBytes_length ns :
  length (nibblesToBytes ns) = (length ns / 2)%nat.
Proof. now rewrite nibblesToBytes_pack, length_map, pack_length. Qed.

Lemma nibblesToBytes_firstn k ns :
  nibblesToBytes (firstn (2 * k) ns) = firstn k (nibblesToBytes ns).
Proof. now rewrite !nibblesToBytes_pack, pack_firstn, firstn_map. Qed.

Lemma idx_byte bytes i : Forall is_byte bytes -> is_byte (idx bytes i).
Proof.
  intros H. unfold idx.
  destruct (Nat.lt_ge_cases i (length bytes)) as [Hlt|Hge].
  - now apply Forall_nth.
  - rewrite nth_overflow by lia. unfold is_byte. lia.
Qed.

(** [parseHeader] reads positions 0..12 only. *)
Lemma parseHeader_first13 b1 b2 :
  (16 <= length b1)%nat -> (16 <= length b2)%nat ->
  firstn 13 b1 = firstn 13 b2 ->
  parseHeader b1 = parseHeader b2.
Proof.
  intros H1 H2 E.
  do 13 (destruct b1 as [|? b1]; [simpl in H1; lia|]).
  do 13 (destruct b2 as [|? b2]; [simpl in H2; lia|]).
  cbn [firstn] in E. injection E as -> -> -> -> -> -> -> -> -> -> -> -> ->.
  unfold parseHeader, HEADER_LEN.
  repeat match goal with
         | |- context [Z.of_nat (length ?l) <? 16] =>
             destruct (Z.ltb_spec (Z.of_nat (length l)) 16);
             [simpl in *; lia|]
         end.
  reflexivity.
Qed.

End CodecExtraFacts.

Module CodecExtras.
Import JS Packet Receiver Spec JSFacts PacketFacts HeaderFacts.
Import CodecExtraFacts ReceiverFacts.

(** X1. Whatever four integers it is given, [buildHeader] returns 16
    bytes, each in 0..255, that begin with the magic bytes and end with
    three zero bytes, and [parseHeader] accepts them. *)
Theorem buildHeader_wellformed (ty plen w h : Z) :
  length (buildHeader ty plen w h) = 16%nat
  /\ Forall is_byte (buildHeader ty plen w h)
  /\ firstn 4 (buildHeader ty plen w h) = MAGIC
  /\ skipn 13 (buildHeader ty plen w h) = [0; 0; 0]
  /\ parseHeader (buildHeader ty plen w h) <> None.
Proof.
  split; [reflexivity|]. split; [|split; [reflexivity|split; [reflexivity|]]].
  - rewrite buildHeader_bytes.
    repeat (constructor; [first [apply toUint8_byte | unfold is_byte; lia]|]).
    constructor.
  - rewrite parse_build. discriminate.
Qed.

(** X2. For a type byte, a payload length below 2^31 and image sizes
    below 2^16, [parseHeader] of the 16 header bytes followed by any
    payload returns exactly these four values. *)
Theorem parse_header_then_payload (ty plen w h : Z) (payload : list Z) :
  is_byte ty -> 0 <= plen < 2^31 -> 0 <= w < 2^16 -> 0 <= h < 2^16 ->
  parseHeader (buildHeader ty plen w h ++ payload)
  = Some {| type := ty; payloadLen := plen; imgW := w; imgH := h |}.
Proof.
  intros Hty Hp Hw Hh.
  rewrite (parseHeader_first13 _ (buildHeader ty plen w h)).
  - unfold is_byte in Hty. rewrite parse_build.
    rewrite (Z.mod_small ty), (toInt32_id plen), (toInt32_id w),
      (toInt32_id h), (Z.mod_small w), (Z.mod_small h) by lia.
    reflexivity.
  - rewrite length_app, buildHeader_length. lia.
  - rewrite buildHeader_length. lia.
  - reflexivity.
Qed.

Lemma parse_header_then_payload_witness :
  parseHeader (buildHeader 0x49 300 48 48 ++ [0xff; 0xd8; 0xff])
  = Some {| type := 0x49; payloadLen := 300; imgW := 48; imgH := 48 |}.
Proof.
  apply parse_header_then_payload; unfold is_byte; lia.
Defined.

(** X3. [parseHeader] looks at the first 13 bytes only: two inputs of
    at least 16 bytes that agree there give the same result, so the
    reserved bytes and whatever follows the header never matter. *)
Theorem parseHeader_reads_13_bytes (b1 b2 : list Z) :
  (16 <= length b1)%nat -> (16 <= length b2)%nat ->
  firstn 13 b1 = firstn 13 b2 ->
  parseHeader b1 = parseHeader b2.
Proof. apply parseHeader_first13. Qed.

Lemma parseHeader_reads_13_bytes_witness :
  parseHeader (Examples.longHeader ++ Examples.received14)
  = parseHeader (firstn 13 Examples.longHeader ++ [9; 9; 9]).
Proof.
  apply parseHeader_reads_13_bytes.
  - simpl. lia.
  - simpl. lia.
  - reflexivity.
Defined.

(** X4. On an array of bytes, a header that [parseHeader] returns has
    a type in 0..255, a payload length in the signed 32-bit range that
    is the 32-bit reading of bytes 5..8, negative exactly when byte 5 is
    128 or more, and image sizes equal to the 16-bit readings of bytes
    9..10 and 11..12. *)
Theorem parsed_header_fields (bytes : list Z) (hdr : Header) :
  Forall is_byte bytes ->
  parseHeader bytes = Some hdr ->
  is_byte (type hdr)
  /\ payloadLen hdr
     = toInt32 (idx bytes 5 * 2^24 + idx bytes 6 * 2^16
                + idx bytes 7 * 2^8 + idx bytes 8)
  /\ - 2^31 <= payloadLen hdr < 2^31
  /\ (payloadLen hdr < 0 <-> 128 <= idx bytes 5)
  /\ imgW hdr = idx bytes 9 * 256 + idx bytes 10
  /\ imgH hdr = idx bytes 11 * 256 + idx bytes 12
  /\ 0 <= imgW hdr < 2^16 /\ 0 <= imgH hdr < 2^16.
Proof.
  intros Hb Hp. unfold parseHeader in Hp.
  destruct (Z.of_nat (length bytes) <? HEADER_LEN); [discriminate|].
  destruct (magic_mismatch bytes); [discriminate|].
  injection Hp as <-. cbn [type payloadLen imgW imgH].
  pose proof (idx_byte bytes 4 Hb) as B4.
  pose proof (idx_byte bytes 5 Hb) as B5.
  pose proof (idx_byte bytes 6 Hb) as B6.
  pose proof (idx_byte bytes 7 Hb) as B7.
  pose proof (idx_byte bytes 8 Hb) as B8.
  pose proof (idx_byte bytes 9 Hb) as B9.
  pose proof (idx_byte bytes 10 Hb) as B10.
  pose proof (idx_byte bytes 11 Hb) as B11.
  pose proof (idx_byte bytes 12 Hb) as B12.
  rewrite read_be32, !read_be16 by assumption.
  change (2^8) with 256.
  unfold is_byte in *.
  split; [exact B4|]. split; [reflexivity|].
  split; [apply toInt32_range|].
  split; [|repeat split; lia].
  destruct (Z.lt_ge_cases (idx bytes 5) 128) as [Hlt|Hge].
  - rewrite toInt32_id by lia. lia.
  - unfold toInt32.
    replace (idx bytes 5 * 2^24 + idx bytes 6 * 2^16 + idx bytes 7 * 256
             + idx bytes 8 + 2^31)
      with ((idx bytes 5 - 256) * 2^24 + idx bytes 6 * 2^16
            + idx bytes 7 * 256 + idx bytes 8 + 2^31 + 1 * 2^32) by lia.
    rewrite Z_mod_plus_full, Z.mod_small; lia.
Qed.

Lemma parsed_header_fields_witness :
  payloadLen {| type := 0x54; payloadLen := -20; imgW := 0; imgH := 0 |} < 0
  <-> 128 <= idx (Examples.longHeader ++ Examples.received14) 5.
Proof.
  refine (proj1 (proj2 (proj2 (proj2
    (parsed_header_fields (Examples.longHeader ++ Examples.received14)
       _ _ eq_refl))))).
  repeat (constructor; [unfold is_byte; lia|]). constructor.
Defined.

(** X5. Whatever integers it is given, [nibblesToBytes] returns bytes
    in 0..255, half as many (rounded down) as it was given entries, and
    [bytesToNibbles] returns nibbles in 0..15, twice as many as it was
    given entries. *)
Theorem codec_outputs_wellformed (xs : list Z) :
  Forall is_byte (nibblesToBytes xs)
  /\ length (nibblesToBytes xs) = (length xs / 2)%nat
  /\ Forall is_nibble (bytesToNibbles xs)
  /\ length (bytesToNibbles xs) = (2 * length xs)%nat.
Proof.
  split; [|split; [apply nibblesToBytes_length
                  |split; [apply bytesToNibbles_nibbles
                          |apply bytesToNibbles_length]]].
  rewrite nibblesToBytes_pack. apply Forall_map, Forall_forall.
  intros x _. apply toUint8_byte.
Qed.

(** X6. Both conversions go through concatenation: the nibbles of
    [a ++ b] are the nibbles of [a] followed by those of [b], and the
    bytes of [a ++ b] are the bytes of [a] followed by those of [b]
    whenever [a] has even length, so a packet is converted header first,
    payload after. *)
Theorem codec_concatenation (a b : list Z) :
  bytesToNibbles (a ++ b) = bytesToNibbles a ++ bytesToNibbles b
  /\ (Nat.Even (length a) ->
      nibblesToBytes (a ++ b) = nibblesToBytes a ++ nibblesToBytes b).
Proof.
  split; [apply bytesToNibbles_app|].
  intros Ha. rewrite !nibblesToBytes_pack, pack_app by exact Ha.
  apply map_app.
Qed.

Lemma codec_concatenation_witness :
  nibblesToBytes ([4; 1] ++ [5; 3; 7])
  = nibblesToBytes [4; 1] ++ nibblesToBytes [5; 3; 7].
Proof.
  apply (proj2 (codec_concatenation [4; 1] [5; 3; 7])).
  exists 1%nat. reflexivity.
Defined.

(** X7. The header that [liveUpdateRxImage] parses from the first 32
    nibbles is the header that [finalizePacket] parses from the whole
    accumulator, for every accumulator of at least 32 nibbles; and the
    cut to even length does not change the decoded bytes. *)
Theorem live_and_final_header_agree (s : Session) :
  (32 <= len (rxNibbles s))%Z ->
  nibblesToBytes (trimNib s) = nibblesToBytes (rxNibbles s)
  /\ parseHeader (nibblesToBytes (slice (rxNibbles s) 0 (HEADER_LEN * 2)))
     = parseHeader (nibblesToBytes (trimNib s)).
Proof.
  intros Hlen. unfold len in Hlen.
  assert (Et : nibblesToBytes (trimNib s) = nibblesToBytes (rxNibbles s)).
  { rewrite trimNib_firstn, nibblesToBytes_firstn.
    apply firstn_all2. rewrite nibblesToBytes_length. lia. }
  split; [exact Et|]. rewrite Et.
  assert (Es : slice (rxNibbles s) 0 (HEADER_LEN * 2)
               = firstn (2 * 16) (rxNibbles s)).
  { unfold slice, HEADER_LEN.
    change (0 <? 0) with false. change (16 * 2 <? 0) with false. cbv iota.
    rewrite !Z.min_l by lia. reflexivity. }
  rewrite Es, nibblesToBytes_firstn.
  assert (L : (16 <= length (nibblesToBytes (rxNibbles s)))%nat).
  { rewrite nibblesToBytes_length.
    apply (Nat.Div0.div_le_mono 32 _ 2); lia. }
  apply parseHeader_first13.
  - rewrite length_firstn. lia.
  - exact L.
  - rewrite firstn_firstn. reflexivity.
Qed.

Lemma live_and_final_header_agree_witness :
  parseHeader (nibblesToBytes
                 (slice (rxNibbles Examples.holdingLongPacket) 0
                        (HEADER_LEN * 2)))
  = parseHeader (nibblesToBytes (trimNib Examples.holdingLongPacket)).
Proof.
  apply live_and_final_header_agree. vm_compute. discriminate.
Defined.

End CodecExtras.

(* ================================================================== *)
(** ** The transmitter *)
(* ================================================================== *)

Module TransmitterFacts.
Import JS Packet Detector Transmitter Spec.
Import PacketFacts CodecExtraFacts.
Local Open Scope Q_scope.

(** The literals of the transmitter as doubles. *)
Lemma literals_in_doubles :
  lit (5 # 100) = 0x1.999999999999ap-5%float
  /\ lit (6 # 100) = 0x1.eb851eb851eb8p-5%float
  /\ lit (9 # 10) = 0x1.ccccccccccccdp-1%float
  /\ lit (5 # 10) = 0x1p-1%float
  /\ lit (4 # 10) = 0x1.999999999999ap-2%float
  /\ lit (4 # 1000) = 0x1.0624dd2f1a9fcp-8%float
  /\ lit (6 # 1000) = 0x1.89374bc6a7efap-8%float
  /\ lit (1 # 100) = 0x1.47ae147ae147bp-7%float
  /\ lit 1000 = 1000%float
  /\ lit 100 = 100%float
  /\ lit 4 = 4%float
  /\ lit 1 = 1%float
  /\ lit PREAMBLE_FREQ = 500%float.
Proof. repeat split; vm_compute; reflexivity. Qed.

(** Unfolds the operations of the arithmetic without rounding. *)
Ltac exact_arith :=
  cbn [add sub mul div lit lt min exact] in *.

Section Loop.
Context {T : Type} {N : Num T}.
Variables (freqs : list T) (symS : T).

Lemma toneLoop_length nibbles :
  forall acc t,
    length (fst (fold_left (toneStep freqs symS) nibbles (acc, t)))
    = (length acc + length nibbles)%nat.
Proof.
  induction nibbles as [|nib nibbles IH]; intros acc t; simpl.
  - lia.
  - unfold toneStep at 2. cbn [fst snd]. rewrite IH, length_app. simpl. lia.
Qed.

Lemma toneLoop_prefix nibbles :
  forall acc t i,
    (i < length acc)%nat ->
    nth_error (fst (fold_left (toneStep freqs symS) nibbles (acc, t))) i
    = nth_error acc i.
Proof.
  induction nibbles as [|nib nibbles IH]; intros acc t i Hi; simpl.
  - reflexivity.
  - unfold toneStep at 2. cbn [fst snd].
    rewrite IH by (rewrite length_app; simpl; lia).
    now apply nth_error_app1.
Qed.

Lemma stepped_succ k t : stepped (S k) t symS = stepped k (add t symS) symS.
Proof.
  unfold stepped. induction k as [|k IH]; [reflexivity|].
  change (Nat.iter (S (S k)) (fun t => add t symS) t)
    with (add (Nat.iter (S k) (fun t => add t symS) t) symS).
  now rewrite IH.
Qed.

Lemma toneLoop_time nibbles :
  forall acc t,
    snd (fold_left (toneStep freqs symS) nibbles (acc, t))
    = stepped (length nibbles) t symS.
Proof.
  induction nibbles as [|nib nibbles IH]; intros acc t.
  - reflexivity.
  - cbn [fold_left length]. unfold toneStep at 2. cbn [fst snd].
    now rewrite IH, stepped_succ.
Qed.

(** The [k]-th nibble gets the tone of its frequency, at the clock
    reached after [k] steps. *)
Lemma toneLoop_nth nibbles :
  forall acc t k nib,
    nth_error nibbles k = Some nib ->
    nth_error (fst (fold_left (toneStep freqs symS) nibbles (acc, t)))
              (length acc + k)
    = Some {| toneFreq := freqOf freqs nib;
              toneStart := stepped k t symS;
              toneDuration := mul symS (lit (9 # 10));
              toneGain := lit (4 # 10) |}.
Proof.
  induction nibbles as [|n0 nibbles IH]; intros acc t k nib Hk.
  - destruct k; discriminate.
  - cbn [fold_left]. unfold toneStep at 2. cbn [fst snd].
    destruct k as [|k].
    + injection Hk as ->.
      rewrite toneLoop_prefix by (rewrite length_app; simpl; lia).
      rewrite Nat.add_0_r, nth_error_app2 by lia.
      rewrite Nat.sub_diag. reflexivity.
    + cbn in Hk.
      specialize (IH (acc ++ [{| toneFreq := freqOf freqs n0;
                                 toneStart := t;
                                 toneDuration := mul symS (lit (9 # 10));
                                 toneGain := lit (4 # 10) |}])
                     (add t symS) k nib Hk).
      rewrite length_app in IH. simpl in IH.
      replace (length acc + S k)%nat with (length acc + 1 + k)%nat by lia.
      now rewrite IH, stepped_succ.
Qed.

End Loop.

Section Shape.
Context {T : Type} {N : Num T}.

(** The tone table entry of a symbol. *)
Lemma getFreqs_nth (cfg : Settings T) n d :
  (n < 16)%nat ->
  nth n (getFreqs cfg) d
  = add (stateBaseFreq cfg)
        (mul (lit (inject_Z (Z.of_nat n))) (freqSpacing cfg)).
Proof.
  intros Hn. do 16 (destruct n as [|n]; [reflexivity|]). lia.
Qed.

Lemma freqOf_nibble (cfg : Settings T) nib :
  is_nibble nib ->
  freqOf (getFreqs cfg) nib
  = add (stateBaseFreq cfg) (mul (lit (inject_Z nib)) (freqSpacing cfg)).
Proof.
  unfold is_nibble. intros Hn. unfold freqOf.
  rewrite getFreqs_nth by lia. rewrite Z2Nat.id by lia. reflexivity.
Qed.

(** The shape of a schedule in any arithmetic: how many tones, the
    preamble, each data tone, and the total duration. *)
Lemma schedule_shape (cfg : Settings T) (ct : T) (header payload : list Z) :
  length (tones (schedule cfg ct header payload))
  = (1 + 2 * (length header + length payload))%nat
  /\ nth_error (tones (schedule cfg ct header payload)) 0
     = Some {| toneFreq := lit PREAMBLE_FREQ;
               toneStart := add ct (lit (5 # 100));
               toneDuration :=
                 mul (div (symDuration cfg) (lit 1000)) PREAMBLE_SYMS;
               toneGain := lit (5 # 10) |}
  /\ (forall k nib,
        nth_error (bytesToNibbles (header ++ payload)) k = Some nib ->
        nth_error (tones (schedule cfg ct header payload)) (S k)
        = Some {| toneFreq :=
                    add (stateBaseFreq cfg)
                        (mul (lit (inject_Z nib)) (freqSpacing cfg));
                  toneStart :=
                    stepped k (dataClock cfg ct)
                            (div (symDuration cfg) (lit 1000));
                  toneDuration :=
                    mul (div (symDuration cfg) (lit 1000)) (lit (9 # 10));
                  toneGain := lit (4 # 10) |})
  /\ totalMs (schedule cfg ct header payload)
     = mul (sub (stepped (2 * (length header + length payload))
                         (dataClock cfg ct)
                         (div (symDuration cfg) (lit 1000)))
                ct)
           (lit 1000).
Proof.
  unfold schedule. cbn [tones totalMs]. fold (dataClock cfg ct).
  assert (Ln : length (bytesToNibbles (header ++ payload))
               = (2 * (length header + length payload))%nat)
    by (rewrite bytesToNibbles_length, length_app; reflexivity).
  split; [|split; [|split]].
  - rewrite toneLoop_length, Ln. reflexivity.
  - rewrite toneLoop_prefix by (simpl; lia). reflexivity.
  - intros k nib Hk.
    match goal with
    | |- nth_error (fst (fold_left _ _ (?acc, _))) _ = _ =>
        change (S k) with (length acc + k)%nat
    end.
    rewrite (toneLoop_nth _ _ _ _ _ _ nib Hk).
    rewrite freqOf_nibble; [reflexivity|].
    pose proof (bytesToNibbles_nibbles (header ++ payload)) as Hall.
    rewrite Forall_forall in Hall. apply Hall.
    eapply nth_error_In; eauto.
  - now rewrite toneLoop_time, Ln.
Qed.

End Shape.

(** Without rounding, [k] steps of [symS] add [k * symS]. *)
Lemma stepped_exact k (t x : Q) :
  stepped k t x == t + inject_Z (Z.of_nat k) * x.
Proof.
  induction k as [|k IH].
  - cbn. ring.
  - change (stepped (S k) t x) with (stepped k t x + x).
    rewrite IH, Nat2Z.inj_succ, <- Z.add_1_r, inject_Z_plus. ring.
Qed.

Lemma dataClock_exact (cfg : Settings Q) (ct : Q) :
  dataClock cfg ct
  == ct + (5 # 100) + symDuration cfg / 1000 * 4 + (6 # 100).
Proof. unfold dataClock, PREAMBLE_SYMS. exact_arith. ring. Qed.

(** Every tone scheduled without rounding is the preamble or the tone
    of a nibble. *)
Lemma schedule_tone_cases (cfg : Settings Q) (ct : Q) header payload i c :
  nth_error (tones (schedule cfg ct header payload)) i = Some c ->
  (i = 0%nat
   /\ c = {| toneFreq := PREAMBLE_FREQ; toneStart := ct + (5 # 100);
             toneDuration := symDuration cfg / 1000 * 4;
             toneGain := 5 # 10 |})
  \/ (exists k nib,
         i = S k
         /\ nth_error (bytesToNibbles (header ++ payload)) k = Some nib
         /\ toneDuration c = symDuration cfg / 1000 * (9 # 10)
         /\ toneStart c
            == ct + (5 # 100) + symDuration cfg / 1000 * 4 + (6 # 100)
               + inject_Z (Z.of_nat k) * (symDuration cfg / 1000)).
Proof.
  intros Hc.
  destruct (schedule_shape cfg ct header payload) as (L & Hpre & Hdata & _).
  destruct i as [|k].
  - left. split; [reflexivity|]. rewrite Hpre in Hc. now injection Hc.
  - right.
    destruct (nth_error (bytesToNibbles (header ++ payload)) k) as [nib|]
      eqn:E.
    + rewrite (Hdata k nib E) in Hc. injection Hc as <-.
      exists k, nib.
      split; [reflexivity|]. split; [exact E|]. split; [reflexivity|].
      cbn [toneStart]. rewrite stepped_exact. ring.
    + apply nth_error_None in E.
      assert (nth_error (tones (schedule cfg ct header payload)) (S k) = None).
      { apply nth_error_None. rewrite L.
        rewrite bytesToNibbles_length, length_app in E. lia. }
      congruence.
Qed.

(** Two neighbours in a schedule without rounding: the preamble and
    the first data tone, 60 ms of silence apart, or two data tones one
    symbol duration apart. *)
Lemma schedule_neighbours (cfg : Settings Q) (ct : Q) header payload i c1 c2 :
  nth_error (tones (schedule cfg ct header payload)) i = Some c1 ->
  nth_error (tones (schedule cfg ct header payload)) (S i) = Some c2 ->
  (toneDuration c1 = symDuration cfg / 1000 * 4
   /\ toneStart c2 == toneStart c1 + toneDuration c1 + (6 # 100))
  \/ (toneDuration c1 = symDuration cfg / 1000 * (9 # 10)
      /\ toneStart c2 == toneStart c1 + symDuration cfg / 1000).
Proof.
  intros H1 H2.
  destruct (schedule_tone_cases _ _ _ _ _ _ H2)
    as [[E _] | (k & nib & E & _ & _ & Hs2)]; [discriminate|].
  injection E as ->.
  destruct (schedule_tone_cases _ _ _ _ _ _ H1)
    as [[-> ->] | (k' & nib' & -> & _ & Hd1 & Hs1)].
  - left. split; [reflexivity|]. cbn [toneStart toneDuration].
    rewrite Hs2. change (inject_Z (Z.of_nat 0)) with 0. ring.
  - right. split; [exact Hd1|].
    rewrite Hs2, Hs1, Nat2Z.inj_succ, <- Z.add_1_r, inject_Z_plus. ring.
Qed.

End TransmitterFacts.

Module TransmitterTheorems.
Import JS Packet Detector Transmitter Spec.
Import PacketFacts CodecExtraFacts TransmitterFacts.
Local Open Scope Q_scope.

(** X8. A transmission of [header ++ payload] schedules one preamble
    tone followed by one tone per nibble, two per packet byte.  The
    preamble has the frequency 500 Hz, starts at the current audio time
    plus 0.05, lasts [symS * 4] for [symS = symDuration / 1000], and
    has gain 0.5.  The tone of nibble number [k] has the frequency
    base + nibble * spacing, starts at the clock reached from
    [currentTime + 0.05 + (symS * 4 + 0.06)] by [k] additions of
    [symS], lasts [symS * 0.9] and has gain 0.4.  The total is the
    clock after the last tone minus the current time, times 1000.  All
    sums and products are the program's, in the order it computes
    them; this holds in the program's doubles as in any arithmetic.
    In doubles, with the default settings and the text "Hi" at audio
    time 0, the first data tone starts at 0.5900000000000001 s and the
    total is 4910.000000000003 ms. *)
Theorem schedule_layout {T : Type} {N : Num T} (cfg : Settings T) (ct : T)
    (header payload : list Z) :
  length (tones (schedule cfg ct header payload))
  = (1 + 2 * (length header + length payload))%nat
  /\ nth_error (tones (schedule cfg ct header payload)) 0
     = Some {| toneFreq := lit PREAMBLE_FREQ;
               toneStart := add ct (lit (5 # 100));
               toneDuration :=
                 mul (div (symDuration cfg) (lit 1000)) (lit 4);
               toneGain := lit (5 # 10) |}
  /\ (forall k nib,
        nth_error (bytesToNibbles (header ++ payload)) k = Some nib ->
        nth_error (tones (schedule cfg ct header payload)) (S k)
        = Some {| toneFreq :=
                    add (stateBaseFreq cfg)
                        (mul (lit (inject_Z nib)) (freqSpacing cfg));
                  toneStart :=
                    Nat.iter k
                      (fun t => add t (div (symDuration cfg) (lit 1000)))
                      (add (add ct (lit (5 # 100)))
                           (add (mul (div (symDuration cfg) (lit 1000))
                                     (lit 4))
                                (lit (6 # 100))));
                  toneDuration :=
                    mul (div (symDuration cfg) (lit 1000)) (lit (9 # 10));
                  toneGain := lit (4 # 10) |})
  /\ totalMs (schedule cfg ct header payload)
     = mul (sub (Nat.iter (2 * (length header + length payload))
                   (fun t => add t (div (symDuration cfg) (lit 1000)))
                   (add (add ct (lit (5 # 100)))
                        (add (mul (div (symDuration cfg) (lit 1000))
                                  (lit 4))
                             (lit (6 # 100)))))
                ct)
           (lit 1000)
  /\ option_map toneStart (nth_error (tones Scenarios.shortText) 1)
     = Some 0x1.2e147ae147ae2p-1%float
  /\ totalMs Scenarios.shortText = 0x1.32e0000000003p+12%float.
Proof.
  destruct (schedule_shape cfg ct header payload) as (L & P & D & M).
  repeat split; try assumption; vm_compute; reflexivity.
Qed.

(** X9. In the arithmetic without rounding, for symbol durations of at
    least 100/9 ms (from which on the gain envelope of every tone is
    well ordered), two tones that follow each other in a schedule do
    not sound together: the gain of the first has come back to 0
    strictly before the fade-in of the second starts.  From a symbol
    duration of 100 ms on, the oscillator of the first has also been
    stopped by then.  In doubles, both hold for all the tones of the
    text "Hi" scheduled with the default settings. *)
Theorem scheduled_tones_do_not_overlap (cfg : Settings Q) (ct : Q)
    (header payload : list Z) (i : nat) (c1 c2 : ToneCall Q) :
  (100 # 9) <= symDuration cfg ->
  nth_error (tones (schedule cfg ct header payload)) i = Some c1 ->
  nth_error (tones (schedule cfg ct header payload)) (S i) = Some c2 ->
  rampDownTo (playTone c1) < rampUpFrom (playTone c2)
  /\ (100 <= symDuration cfg ->
      oscStop (playTone c1) <= rampUpFrom (playTone c2))
  /\ length (tones Scenarios.shortText) = 37%nat
  /\ apart (tones Scenarios.shortText) = true.
Proof.
  intros Hsd H1 H2.
  cut (rampDownTo (playTone c1) < rampUpFrom (playTone c2)
       /\ (100 <= symDuration cfg ->
           oscStop (playTone c1) <= rampUpFrom (playTone c2))).
  { intros [A B]. repeat split; try assumption; vm_compute; reflexivity. }
  cbn [playTone rampDownTo rampUpFrom oscStop].
  exact_arith.
  assert (Hs : (1 # 90) <= symDuration cfg / 1000)
    by (apply Qle_shift_div_l; [reflexivity | lra]).
  destruct (schedule_neighbours cfg ct header payload i c1 c2 H1 H2)
    as [[Hd Hn] | [Hd Hn]]; rewrite Hn, Hd.
  - set (x := symDuration cfg / 1000) in *. split; [lra | intros _; lra].
  - split.
    + set (x := symDuration cfg / 1000) in *. lra.
    + intros Hlong.
      assert ((1 # 10) <= symDuration cfg / 1000)
        by (apply Qle_shift_div_l; [reflexivity | lra]).
      set (x := symDuration cfg / 1000) in *. lra.
Qed.

End TransmitterTheorems.

(* ================================================================== *)
(** ** From the transmitter's nibbles to the receiver's output *)
(* ================================================================== *)

Module EndToEndFacts.
Import JS Packet Detector Receiver Transmitter Spec RxSpec.
Import JSFacts PacketFacts HeaderFacts CodecExtraFacts ReceiverFacts.

Lemma buildHeader_bytes_all ty plen w h :
  Forall is_byte (buildHeader ty plen w h).
Proof.
  rewrite buildHeader_bytes.
  repeat (constructor; [first [apply toUint8_byte | unfold is_byte; lia]|]).
  constructor.
Qed.

Lemma parseHeader_build_app ty plen w h payload :
  is_byte ty -> (0 <= plen < 2^31)%Z ->
  (0 <= w < 2^16)%Z -> (0 <= h < 2^16)%Z ->
  parseHeader (buildHeader ty plen w h ++ payload)
  = Some {| type := ty; payloadLen := plen; imgW := w; imgH := h |}.
Proof.
  intros Hty Hp Hw Hh.
  rewrite (parseHeader_first13 _ (buildHeader ty plen w h)).
  - unfold is_byte in Hty. rewrite parse_build.
    rewrite (Z.mod_small ty), (toInt32_id plen), (toInt32_id w),
      (toInt32_id h), (Z.mod_small w), (Z.mod_small h) by lia.
    reflexivity.
  - rewrite length_app, buildHeader_length. lia.
  - rewrite buildHeader_length. lia.
  - reflexivity.
Qed.

Lemma nibblesToBytes_trimNib s :
  nibblesToBytes (trimNib s) = nibblesToBytes (rxNibbles s).
Proof.
  rewrite trimNib_firstn, nibblesToBytes_firstn.
  apply firstn_all2. rewrite nibblesToBytes_length. lia.
Qed.

Lemma slice_prefix {A : Type} (l : list A) (n : nat) :
  slice l 0 (Z.of_nat n) = firstn n l.
Proof.
  unfold slice. change (0 <? 0)%Z with false. cbv iota.
  destruct (Z.ltb_spec (Z.of_nat n) 0); [lia|].
  rewrite (Z.min_l 0) by lia. rewrite Z.sub_0_r. cbn [Z.to_nat skipn].
  destruct (Nat.le_ge_cases n (length l)) as [Hle|Hge].
  - rewrite Z.min_l, Z.max_l by lia. now rewrite Nat2Z.id.
  - rewrite Z.min_r, Z.max_l by lia. rewrite Nat2Z.id.
    now rewrite !firstn_all2 by lia.
Qed.

(** The accumulator holds a whole packet: [finalizePacket] delivers its
    payload. *)
Lemma finalize_full_packet s ty w h payload :
  is_byte ty -> Forall is_byte payload ->
  (len payload < 2^31)%Z -> (0 <= w < 2^16)%Z -> (0 <= h < 2^16)%Z ->
  rxNibbles s = bytesToNibbles (buildHeader ty (len payload) w h ++ payload) ->
  finalizePacket s
  = (idleSession s,
     deliver {| type := ty; payloadLen := len payload;
                imgW := w; imgH := h |} payload
     ++ [SetRxImgProgReset; SetTimeoutListening 3000]).
Proof.
  intros Hty Hpay Hlen Hw Hh Hs.
  assert (Hb : nibblesToBytes (trimNib s)
               = buildHeader ty (len payload) w h ++ payload).
  { rewrite nibblesToBytes_trimNib, Hs. apply bytes_roundtrip.
    apply Forall_app. split; [apply buildHeader_bytes_all | exact Hpay]. }
  assert (Hp : parseHeader (nibblesToBytes (trimNib s))
               = Some {| type := ty; payloadLen := len payload;
                         imgW := w; imgH := h |}).
  { rewrite Hb. apply parseHeader_build_app; try assumption.
    unfold len in *. lia. }
  rewrite (finalizePacket_parsed s _ ltac:(
    unfold len; rewrite trimNib_length, Hs, bytesToNibbles_length,
      length_app, buildHeader_length;
    replace (2 * (16 + length payload))%nat
      with ((16 + length payload) * 2)%nat by lia;
    rewrite Nat.div_mul by lia; lia) Hp).
  do 2 f_equal. rewrite Hb.
  rewrite payloadOf_clamped;
    [|cbn [payloadLen]; unfold len; lia
     |rewrite length_app, buildHeader_length; lia].
  cbn [payloadLen]. unfold len. rewrite Nat2Z.id.
  rewrite skipn_app, buildHeader_length. cbn [Nat.sub].
  change (skipn 16 (buildHeader ty (Z.of_nat (length payload)) w h))
    with (@nil Z).
  cbn [app skipn]. now rewrite firstn_all.
Qed.

End EndToEndFacts.

Module EndToEndTheorems.
Import JS Packet Detector Receiver Transmitter Spec RxSpec.
Import JSFacts PacketFacts HeaderFacts CodecExtraFacts ReceiverFacts.
Import EndToEndFacts.

(** X10. Text end to end over a clean nibble channel: for every
    non-empty text of fewer than 2^31 bytes, [transmit] schedules a
    transmission, and a receiver whose accumulator holds exactly the
    nibbles of that transmission finalizes to that very text, with the
    success status, the reset to IDLE and the 3 s timer, and nothing
    else. *)
Theorem text_end_to_end {T : Type} {N : Num T} (cfg : Settings T) (ct : T)
    (payload : list Z) (jpeg : option (list Z)) (w h : Z) :
  payload <> [] -> Forall is_byte payload -> (len payload < 2^31)%Z ->
  exists tr,
    transmit cfg {| txMode := ModeText; txInput := payload;
                    pendingJpegBytes := jpeg;
                    pendingImgW := w; pendingImgH := h |} ct
    = TxScheduled tr
    /\ nibblesToBytes (nibbles tr) = fullPacket tr
    /\ forall s,
         rxNibbles s = nibbles tr ->
         finalizePacket s
         = (idleSession s,
            [SetRxOutputText payload; SetRxOutputHas; SetRxImgSrcNull;
             SetRxStatus ok (MsgTextReceived payload);
             SetRxImgProgReset; SetTimeoutListening 3000]).
Proof.
  intros Hne Hpay Hlen.
  exists (schedule cfg ct (buildHeader TYPE_TEXT (len payload) 0 0) payload).
  split; [|split].
  - unfold transmit. cbn [txMode txInput].
    destruct payload; [congruence | reflexivity].
  - cbn [schedule nibbles fullPacket]. apply bytes_roundtrip.
    apply Forall_app. split; [apply buildHeader_bytes_all | exact Hpay].
  - intros s Hs. cbn [schedule nibbles] in Hs.
    rewrite (finalize_full_packet s TYPE_TEXT 0 0 payload);
      try assumption; try (unfold is_byte, TYPE_TEXT; lia); try lia.
    reflexivity.
Qed.

Lemma text_end_to_end_witness :
  exists tr,
    transmit Scenarios.settings
      {| txMode := ModeText; txInput := Examples.received14;
         pendingJpegBytes := None; pendingImgW := 0; pendingImgH := 0 |}
      0%float
    = TxScheduled tr
    /\ nibblesToBytes (nibbles tr) = fullPacket tr
    /\ forall s,
         rxNibbles s = nibbles tr ->
         finalizePacket s
         = (idleSession s,
            [SetRxOutputText Examples.received14; SetRxOutputHas;
             SetRxImgSrcNull;
             SetRxStatus ok (MsgTextReceived Examples.received14);
             SetRxImgProgReset; SetTimeoutListening 3000]).
Proof.
  apply text_end_to_end.
  - discriminate.
  - repeat (constructor; [unfold is_byte; lia|]). constructor.
  - vm_compute. reflexivity.
Defined.

(** X11. Image end to end over a clean nibble channel: for every
    loaded image of fewer than 2^31 bytes with sizes below 2^16,
    [transmit] schedules a transmission, and on a receiver that has
    accumulated the first [n] nibbles of it, the progress check does
    nothing below 32 nibbles, shows progress [n] of the packet's total
    and leaves the session alone from 32 nibbles up to the last but one,
    and at the last nibble shows the full progress, finalizes by itself
    and delivers exactly the image bytes with the declared sizes. *)
Theorem image_end_to_end {T : Type} {N : Num T} (cfg : Settings T) (ct : T)
    (payload text : list Z) (w h : Z) :
  Forall is_byte payload -> (len payload < 2^31)%Z ->
  (0 <= w < 2^16)%Z -> (0 <= h < 2^16)%Z ->
  exists tr,
    transmit cfg {| txMode := ModeImage; txInput := text;
                    pendingJpegBytes := Some payload;
                    pendingImgW := w; pendingImgH := h |} ct
    = TxScheduled tr
    /\ len (nibbles tr) = (2 * (16 + len payload))%Z
    /\ forall s n,
         (n <= length (nibbles tr))%nat ->
         rxNibbles s = firstn n (nibbles tr) ->
         ((n < 32)%nat -> liveUpdateRxImage s = (s, []))
         /\ ((32 <= n < length (nibbles tr))%nat ->
             liveUpdateRxImage s
             = (s, [SetRxImgProgShow (Z.of_nat n) (len (nibbles tr))]))
         /\ (n = length (nibbles tr) ->
             liveUpdateRxImage s
             = (idleSession s,
                [SetRxImgProgShow (len (nibbles tr)) (len (nibbles tr));
                 LoadImage payload; SetRxImgProgHide;
                 SetRxOutputImage w h (len payload); SetRxOutputHas;
                 SetRxStatus ok (MsgImageReceived w h (len payload));
                 SetRxImgProgReset; SetTimeoutListening 3000])).
Proof.
  intros Hpay Hlen Hw Hh.
  exists (schedule cfg ct (buildHeader TYPE_IMAGE (len payload) w h) payload).
  cbn [schedule nibbles].
  set (hdrBytes := buildHeader TYPE_IMAGE (len payload) w h).
  set (nibs := bytesToNibbles (hdrBytes ++ payload)).
  assert (Ln : length nibs = (2 * (16 + length payload))%nat).
  { unfold nibs. rewrite bytesToNibbles_length, length_app.
    reflexivity. }
  assert (Lz : len nibs = (2 * (16 + len payload))%Z)
    by (unfold len; rewrite Ln; lia).
  split; [reflexivity|]. split; [exact Lz|].
  intros s n Hn Hs.
  assert (Lr : len (rxNibbles s) = Z.of_nat n).
  { unfold len. rewrite Hs, length_firstn. lia. }
  split; [|split].
  - intros Hshort. unfold liveUpdateRxImage. rewrite Lr.
    destruct (Z.ltb_spec (Z.of_nat n) (HEADER_LEN * 2));
      [reflexivity | unfold HEADER_LEN in *; lia].
  - intros [Hge Hlt]. unfold liveUpdateRxImage. rewrite Lr.
    destruct (Z.ltb_spec (Z.of_nat n) (HEADER_LEN * 2));
      [unfold HEADER_LEN in *; lia|].
    change (HEADER_LEN * 2)%Z with (Z.of_nat 32).
    rewrite slice_prefix, Hs, firstn_firstn, Nat.min_l by lia.
    unfold nibs at 1. rewrite bytesToNibbles_app, firstn_app.
    rewrite (bytesToNibbles_length hdrBytes).
    change (32 - 2 * length hdrBytes)%nat with 0%nat.
    rewrite firstn_all2 by (rewrite bytesToNibbles_length; apply Nat.le_refl).
    cbn [firstn]. rewrite app_nil_r.
    rewrite bytes_roundtrip by apply buildHeader_bytes_all.
    rewrite <- (app_nil_r hdrBytes). unfold hdrBytes.
    rewrite parseHeader_build_app;
      try assumption; try (unfold is_byte, TYPE_IMAGE; lia);
      try (unfold len in *; lia).
    cbn [type payloadLen]. change (TYPE_IMAGE =? TYPE_IMAGE)%Z with true.
    cbn [negb]. rewrite emit_andThen.
    replace ((HEADER_LEN + len payload) * 2)%Z with (len nibs)
      by (rewrite Lz; unfold HEADER_LEN; lia).
    rewrite Lr.
    destruct (Z.geb_spec (Z.of_nat n) (len nibs)) as [Hfull|_];
      [unfold len in Hfull; lia|].
    reflexivity.
  - intros ->. unfold liveUpdateRxImage. rewrite Lr.
    destruct (Z.ltb_spec (Z.of_nat (length nibs)) (HEADER_LEN * 2));
      [unfold HEADER_LEN in *; lia|].
    change (HEADER_LEN * 2)%Z with (Z.of_nat 32).
    rewrite slice_prefix, Hs, firstn_firstn, Nat.min_l by lia.
    unfold nibs at 1. rewrite bytesToNibbles_app, firstn_app.
    rewrite (bytesToNibbles_length hdrBytes).
    change (32 - 2 * length hdrBytes)%nat with 0%nat.
    rewrite firstn_all2 by (rewrite bytesToNibbles_length; apply Nat.le_refl).
    cbn [firstn]. rewrite app_nil_r.
    rewrite bytes_roundtrip by apply buildHeader_bytes_all.
    rewrite <- (app_nil_r hdrBytes). unfold hdrBytes.
    rewrite parseHeader_build_app;
      try assumption; try (unfold is_byte, TYPE_IMAGE; lia);
      try (unfold len in *; lia).
    cbn [type payloadLen]. change (TYPE_IMAGE =? TYPE_IMAGE)%Z with true.
    cbn [negb]. rewrite emit_andThen.
    replace ((HEADER_LEN + len payload) * 2)%Z with (len nibs)
      by (rewrite Lz; unfold HEADER_LEN; lia).
    rewrite Lr. fold (len nibs).
    destruct (Z.geb_spec (len nibs) (len nibs)) as [_|Hbad]; [|lia].
    rewrite (finalize_full_packet s TYPE_IMAGE w h payload);
      try assumption; try (unfold is_byte, TYPE_IMAGE; lia).
    + reflexivity.
    + rewrite Hs. fold hdrBytes. fold nibs. now rewrite firstn_all.
Qed.

End EndToEndTheorems.

(* ================================================================== *)
(** ** Further properties of the receiver *)
(* ================================================================== *)

Module ReceiverExtraFacts.
Import JS Packet Detector Receiver Spec RxSpec RxProps Driver.
Import DetectorFacts VoteFacts ReceiverFacts WindowInvariant.
Local Open Scope Q_scope.

Lemma finalizePacket_session s : fst (finalizePacket s) = idleSession s.
Proof.
  unfold finalizePacket.
  destruct (len (trimNib s) <? HEADER_LEN * 2)%Z; [reflexivity|].
  destruct (parseHeader _); reflexivity.
Qed.

Lemma liveUpdateRxImage_session s :
  fst (liveUpdateRxImage s) = s \/ fst (liveUpdateRxImage s) = idleSession s.
Proof.
  unfold liveUpdateRxImage.
  destruct (len (rxNibbles s) <? HEADER_LEN * 2)%Z; [now left|].
  destruct (parseHeader _) as [hdr|]; [|now left].
  destruct (negb _); [now left|].
  rewrite fst_andThen. cbn [emit fst].
  destruct (len (rxNibbles s) >=? _)%Z; [|now left].
  right. apply finalizePacket_session.
Qed.

Lemma idleSession_wellFormed s : wellFormed (idleSession s).
Proof.
  repeat split; try constructor; cbn; try lia.
Qed.

Lemma pushSample_fields THRESH det s :
  rxState (pushSample THRESH det s) = rxState s
  /\ rxNibbles (pushSample THRESH det s) = rxNibbles s
  /\ (0 <= silenceCount s -> 0 <= silenceCount (pushSample THRESH det s))%Z.
Proof.
  unfold pushSample. destruct (Qgtb _ _); cbn; repeat split; auto; lia.
Qed.

(** What closing a window leaves: the reset session (with the clock of
    this tick as window start when the reset came from the progress
    check), or the session with an emptied window, the clock of this
    tick, and either one more nibble and silence 0 or the same nibbles
    and one more silence. *)
Lemma closeWindow_session now s :
  fst (closeWindow now s) = idleSession s
  \/ fst (closeWindow now s) = set_lastSymTime now (idleSession s)
  \/ fst (closeWindow now s)
     = set_lastSymTime now
         (set_sampleBuf []
            (voted (winnerOf (validSamples (sampleBuf s))) s))
  \/ fst (closeWindow now s)
     = set_lastSymTime now
         (set_sampleBuf []
            (set_silenceCount (silenceCount s + 1) s)).
Proof.
  unfold closeWindow.
  destruct (len (validSamples (sampleBuf s)) >? 0)%Z.
  - rewrite fst_andThen.
    destruct (liveUpdateRxImage_session
                (voted (winnerOf (validSamples (sampleBuf s))) s))
      as [E|E]; unfold voted in *; rewrite E.
    + right. right. left. reflexivity.
    + right. left. reflexivity.
  - destruct (_ && _).
    + left. rewrite finalizePacket_session. reflexivity.
    + destruct (_ && _); [left | right; right; right]; reflexivity.
Qed.

Lemma tick_wellFormed cfg a now s :
  wellFormed s -> wellFormed (fst (tick cfg a now s)).
Proof.
  intros W.
  pose proof (tick_samples_in_range cfg a now s (proj1 W)) as Hsam.
  destruct W as (Ws & Wn & Wc & Wq).
  split; [exact Hsam|]. clear Hsam.
  destruct (detectSymbol cfg a) as [det|] eqn:Hdet.
  2: { unfold tick. rewrite Hdet. cbn [fst].
       split; [exact Wn | split; [exact Wc | exact Wq]]. }
  rewrite (tick_with_detection _ _ _ _ _ Hdet), fst_andThen.
  cbn [emit fst].
  destruct (rxState s) eqn:Hst.
  - assert (Hq : rxNibbles s = [] /\ sampleBuf s = [])
      by (apply Wq; discriminate).
    unfold tickIdle.
    destruct (Qgtb (getPreambleMag a) (thresh cfg)).
    + destruct (falsy (preambleAt s));
        cbn [preambleAt set_preambleAt];
        destruct (_ <? _)%float; cbn;
        (split; [exact Wn | split; [exact Wc | intros _; exact Hq]]).
    + cbn. split; [exact Wn | split; [exact Wc | intros _; exact Hq]].
  - assert (Hq : rxNibbles s = [] /\ sampleBuf s = [])
      by (apply Wq; discriminate).
    unfold tickPreamble.
    destruct (_ <=? _)%float; cbn.
    + split; [constructor | split; [lia | intros _; split; reflexivity]].
    + split; [exact Wn | split; [exact Wc | intros _; exact Hq]].
  - unfold tickData.
    destruct (45000 <? now - rxDataStart s)%float;
      [apply (proj2 (idleSession_wellFormed s))|].
    pose proof (pushSample_fields (thresh cfg) det s) as (Ps & Pn & Pc).
    pose proof (pushSample_in_range cfg a det s Hdet Ws) as Pr.
    remember (pushSample (thresh cfg) det s) as s1 eqn:Es1.
    clear Es1.
    assert (Hdata : rxState s1 <> RX_DATA ->
                    rxNibbles s1 = [] /\ sampleBuf s1 = [])
      by (rewrite Ps, Hst; congruence).
    destruct (_ <=? _)%float.
    + destruct (closeWindow_session now s1) as [E|[E|[E|E]]]; rewrite E.
      * apply (proj2 (idleSession_wellFormed s1)).
      * apply (proj2 (idleSession_wellFormed (set_lastSymTime now s1))).
      * cbn. split; [|split; [lia|]].
        -- apply Forall_app. split; [rewrite Pn; exact Wn|].
           repeat constructor; apply (winnerOf_majority _ Pr).
        -- rewrite Ps, Hst. congruence.
      * cbn. split; [rewrite Pn; exact Wn|split].
        -- specialize (Pc Wc). lia.
        -- rewrite Ps, Hst. congruence.
    + cbn [fst].
      split; [rewrite Pn; exact Wn | split; [apply Pc, Wc | exact Hdata]].
Qed.

Lemma run_fst cfg inputs :
  forall r1 r2,
    fst r1 = fst r2 ->
    fst (fold_left (fun r (i : option Analyser * float) =>
                      r ;; tick cfg (fst i) (snd i)) inputs r1)
    = fst (fold_left (fun r (i : option Analyser * float) =>
                        r ;; tick cfg (fst i) (snd i)) inputs r2).
Proof.
  induction inputs as [|i inputs IH]; intros r1 r2 E; [exact E|].
  cbn [fold_left]. apply IH. now rewrite !fst_andThen, E.
Qed.

Lemma run_cons cfg i inputs s :
  fst (run cfg (i :: inputs) s)
  = fst (run cfg inputs (fst (tick cfg (fst i) (snd i) s))).
Proof.
  unfold run. cbn [fold_left]. apply run_fst.
  now rewrite fst_andThen.
Qed.

Lemma run_wellFormed cfg inputs :
  forall s, wellFormed s -> wellFormed (fst (run cfg inputs s)).
Proof.
  induction inputs as [|i inputs IH]; intros s W; [exact W|].
  rewrite run_cons. apply IH. now apply tick_wellFormed.
Qed.

End ReceiverExtraFacts.

Module ReceiverExtras.
Import JS Packet Detector Receiver Spec RxSpec RxProps Driver.
Import DetectorFacts VoteFacts ReceiverFacts WindowInvariant.
Import CodecExtraFacts EndToEndFacts ReceiverExtraFacts.
Local Open Scope Q_scope.

(** X12. Whatever the accumulator holds, [finalizePacket] leaves the
    reset session and does exactly one of five things: it reports
    INCOMPLETE, or BAD HEADER (and then sets no timer), or delivers a
    text, or delivers an image, or reports an unknown type that is
    neither TEXT nor IMAGE; nothing is delivered on the three error
    outcomes. *)
Theorem finalize_outcomes (s : Session) :
  fst (finalizePacket s) = idleSession s
  /\ (snd (finalizePacket s)
      = [SetRxStatus warn (MsgIncomplete (len (trimNib s) / 2)%Z);
         SetRxImgProgReset; SetTimeoutListening 3000]
      \/ snd (finalizePacket s)
         = [SetRxStatus warn MsgBadHeader; SetRxImgProgReset]
      \/ (exists payload,
            snd (finalizePacket s)
            = [SetRxOutputText payload; SetRxOutputHas; SetRxImgSrcNull;
               SetRxStatus ok (MsgTextReceived payload);
               SetRxImgProgReset; SetTimeoutListening 3000])
      \/ (exists w h payload,
            snd (finalizePacket s)
            = [LoadImage payload; SetRxImgProgHide;
               SetRxOutputImage w h (len payload); SetRxOutputHas;
               SetRxStatus ok (MsgImageReceived w h (len payload));
               SetRxImgProgReset; SetTimeoutListening 3000])
      \/ (exists ty,
            ty <> TYPE_TEXT /\ ty <> TYPE_IMAGE
            /\ snd (finalizePacket s)
               = [SetRxStatus warn (MsgUnknownType ty);
                  SetRxImgProgReset; SetTimeoutListening 3000])).
Proof.
  split; [apply finalizePacket_session|].
  unfold finalizePacket.
  destruct (len (trimNib s) <? HEADER_LEN * 2)%Z; [now left|].
  destruct (parseHeader (nibblesToBytes (trimNib s))) as [hdr|];
    [|right; now left].
  right. right. unfold andThen, emit, resetRxState, deliver. cbn [snd].
  destruct (Z.eqb_spec (type hdr) TYPE_TEXT) as [Ht|Ht].
  - left. eexists. reflexivity.
  - destruct (Z.eqb_spec (type hdr) TYPE_IMAGE) as [Hi|Hi].
    + right. left. do 3 eexists. reflexivity.
    + right. right. exists (type hdr). repeat split; assumption.
Qed.

(** X13. One tick moves the state machine only along IDLE to the
    waiting state, the waiting state to DATA, and DATA to IDLE, or
    leaves the state as it is: never from IDLE straight to DATA, never
    from the waiting state back to IDLE, never from DATA to the waiting
    state. *)
Theorem tick_moves (cfg : Config) (a : option Analyser) (now : float)
    (s : Session) :
  allowedMove (rxState s) (rxState (fst (tick cfg a now s))).
Proof.
  destruct (detectSymbol cfg a) as [det|] eqn:Hdet.
  2: { unfold tick. rewrite Hdet. cbn [fst].
       destruct (rxState s); exact I. }
  rewrite (tick_with_detection _ _ _ _ _ Hdet), fst_andThen.
  cbn [emit fst].
  destruct (rxState s) eqn:Hst.
  - unfold tickIdle.
    destruct (Qgtb (getPreambleMag a) (thresh cfg)).
    + destruct (falsy (preambleAt s));
        cbn [preambleAt set_preambleAt];
        destruct (_ <? _)%float; cbn; try rewrite Hst; exact I.
    + cbn. rewrite Hst. exact I.
  - unfold tickPreamble.
    destruct (_ <=? _)%float; cbn; try rewrite Hst; exact I.
  - unfold tickData.
    destruct (45000 <? now - rxDataStart s)%float; [exact I|].
    pose proof (pushSample_fields (thresh cfg) det s) as (Ps & _).
    remember (pushSample (thresh cfg) det s) as s1 eqn:Es1. clear Es1.
    destruct (_ <=? _)%float.
    + destruct (closeWindow_session now s1) as [E|[E|[E|E]]]; rewrite E;
        cbn; try rewrite Ps, Hst; exact I.
    + cbn. rewrite Ps, Hst. exact I.
Qed.

(** X14. Along every run of ticks from a reset session, whatever the
    spectra, clocks and settings: every sample in the window is [-1] or
    0..15, every nibble in the accumulator is 0..15, the silence counter
    is not negative, and outside the data phase accumulator and window
    are empty. *)
Theorem run_keeps_session_wellformed (cfg : Config)
    (inputs : list (option Analyser * float)) (s0 : Session) :
  wellFormed (fst (run cfg inputs (fst (resetRxState s0)))).
Proof.
  apply run_wellFormed. apply idleSession_wellFormed.
Qed.

(** X15. A tick changes the accumulator in one of three ways only: it
    leaves it as it is, appends one value to it, or empties it. *)
Theorem tick_accumulator_step (cfg : Config) (a : option Analyser)
    (now : float) (s : Session) :
  rxNibbles (fst (tick cfg a now s)) = rxNibbles s
  \/ (exists w, rxNibbles (fst (tick cfg a now s)) = rxNibbles s ++ [w])
  \/ rxNibbles (fst (tick cfg a now s)) = [].
Proof.
  destruct (detectSymbol cfg a) as [det|] eqn:Hdet.
  2: { unfold tick. rewrite Hdet. now left. }
  rewrite (tick_with_detection _ _ _ _ _ Hdet), fst_andThen.
  cbn [emit fst].
  destruct (rxState s) eqn:Hst.
  - unfold tickIdle.
    destruct (Qgtb (getPreambleMag a) (thresh cfg)).
    + destruct (falsy (preambleAt s));
        cbn [preambleAt set_preambleAt];
        destruct (_ <? _)%float; now left.
    + now left.
  - unfold tickPreamble.
    destruct (_ <=? _)%float; [right; right; reflexivity | now left].
  - unfold tickData.
    destruct (45000 <? now - rxDataStart s)%float;
      [right; right; reflexivity|].
    pose proof (pushSample_fields (thresh cfg) det s) as (_ & Pn & _).
    remember (pushSample (thresh cfg) det s) as s1 eqn:Es1. clear Es1.
    destruct (_ <=? _)%float.
    + destruct (closeWindow_session now s1) as [E|[E|[E|E]]]; rewrite E.
      * right; right; reflexivity.
      * right; right; reflexivity.
      * right; left. eexists. cbn. rewrite Pn. reflexivity.
      * left. cbn. exact Pn.
    + left. exact Pn.
Qed.

End ReceiverExtras.

Module SilenceFacts.
Import JS Packet Detector Receiver Spec RxSpec RxProps.
Import DetectorFacts ReceiverFacts WindowInvariant ReceiverExtraFacts.
Local Open Scope Q_scope.


End SilenceFacts.

Module SilenceTheorems.
Import JS Packet Detector Receiver Spec RxSpec RxProps.
Import DetectorFacts ReceiverFacts WindowInvariant ReceiverExtraFacts.
Import PacketFacts CodecExtraFacts EndToEndFacts SilenceFacts.
Local Open Scope Q_scope.




End SilenceTheorems.

Module ClockFacts.
Local Open Scope float_scope.

(** Rounding keeps the sign. *)
Lemma round_sign sx mx ex lx :
  match binary_round_aux prec emax sx mx ex lx with
  | S754_zero s | S754_infinity s | S754_finite s _ _ => s = sx
  | S754_nan => True
  end.
Proof.
  unfold binary_round_aux.
  destruct (shr_fexp _ _ _ _ _) as [mrs' e'].
  destruct (shr_fexp _ _ _ _ _) as [mrs'' e''].
  destruct (shr_m mrs''); auto.
  destruct (Z.leb _ _); reflexivity.
Qed.

(** [x - x] is [+0], or [NaN] when [x] is not finite. *)
Lemma sub_diag_spec x :
  SF64sub x x = S754_nan \/ SF64sub x x = S754_zero false.
Proof.
  unfold SF64sub, SFsub.
  destruct x as [[|]|[|]| |s m e]; auto.
  right. cbv zeta. rewrite Z.sub_diag. reflexivity.
Qed.

Lemma nonneg_spec x :
  SFleb (S754_zero false) x = true ->
  match x with
  | S754_zero _ => True
  | S754_infinity s | S754_finite s _ _ => s = false
  | S754_nan => False
  end.
Proof.
  unfold SFleb, SFcompare. destruct x as [s|s| |s m e]; auto;
    try destruct s; try discriminate; auto.
Qed.

Lemma one_spec : Prim2SF 1 = S754_finite false 4503599627370496 (-52).
Proof. reflexivity. Qed.

(** On the tick that first sees the preamble the elapsed time
    [now - now] does not exceed a symbol duration that is not
    negative. *)
Lemma not_elapsed_at_first_sight (sd now : float) :
  (0 <=? sd) = true -> (sd * 1 <? now - now) = false.
Proof.
  rewrite leb_spec, ltb_spec, mul_spec, sub_spec, one_spec.
  change (Prim2SF 0) with (S754_zero false).
  intros H. apply nonneg_spec in H.
  destruct (sub_diag_spec (Prim2SF now)) as [E|E]; rewrite E.
  - unfold SFltb, SFcompare. now destruct (SF64mul _ _).
  - unfold SF64mul, SFmul.
    destruct (Prim2SF sd) as [s|s| |s m e]; try contradiction;
      try reflexivity.
    + subst s. reflexivity.
    + subst s. cbn [xorb].
      pose proof (round_sign false (Z.pos (m * 4503599627370496))
                    (e + -52) loc_Exact) as R.
      destruct (binary_round_aux _ _ _ _ _ _) as [s'|s'| |s' m' e'];
        try subst s'; reflexivity.
Qed.

(** A double that is at most 1 and not below 1 is 1. *)
Lemma one_reached (x : float) :
  (x <=? 1) = true -> (x <? 1) = false -> x = 1.
Proof.
  rewrite leb_spec, ltb_spec, one_spec. intros Hle Hlt.
  rewrite <- (SF2Prim_Prim2SF x).
  change 1 with (SF2Prim (S754_finite false 4503599627370496 (-52))).
  f_equal.
  unfold SFleb, SFltb, SFcompare in *.
  destruct (Prim2SF x) as [s|s| |s m e]; try discriminate;
    try (destruct s; discriminate).
  destruct s; [discriminate|].
  destruct (Z.compare_spec e (-52)); try discriminate.
  subst e.
  destruct (Pos.compare_cont Eq m 4503599627370496) eqn:C; try discriminate.
  apply Pos.compare_eq in C. now subst m.
Qed.

End ClockFacts.

Module StatusFacts.
Import JS Packet Detector Receiver Spec RxSpec RxProps.
Import DetectorFacts ReceiverFacts WindowInvariant ReceiverExtraFacts.
Local Open Scope Q_scope.

Lemma snd_andThen r k : snd (r ;; k) = snd r ++ snd (k (fst r)).
Proof.
  unfold andThen. destruct r as [s es]. cbn [fst snd].
  now destruct (k s).
Qed.

Ltac no_incomplete H :=
  repeat (apply in_app_or in H; destruct H as [H|H]);
  simpl in H; intuition discriminate.

Lemma finalizePacket_not_incomplete s c n :
  (32 <= len (rxNibbles s))%Z ->
  ~ In (SetRxStatus c (MsgIncomplete n)) (snd (finalizePacket s)).
Proof.
  intros Hlen Hin. unfold finalizePacket in Hin.
  destruct (Z.ltb_spec (len (trimNib s)) (HEADER_LEN * 2)) as [Hs|_].
  - unfold len, HEADER_LEN in *. rewrite trimNib_length in Hs.
    assert (16 <= length (rxNibbles s) / 2)%nat
      by (apply (Nat.Div0.div_le_mono 32 _ 2); lia).
    lia.
  - destruct (parseHeader _) as [hdr|].
    + rewrite !snd_andThen in Hin. unfold deliver in Hin. cbn in Hin.
      destruct (type hdr =? TYPE_TEXT)%Z;
        [|destruct (type hdr =? TYPE_IMAGE)%Z]; no_incomplete Hin.
    + rewrite !snd_andThen in Hin. cbn in Hin. no_incomplete Hin.
Qed.

Lemma liveUpdateRxImage_not_incomplete s c n :
  ~ In (SetRxStatus c (MsgIncomplete n)) (snd (liveUpdateRxImage s)).
Proof.
  intros Hin. unfold liveUpdateRxImage in Hin.
  destruct (Z.ltb_spec (len (rxNibbles s)) (HEADER_LEN * 2)) as [|Hge];
    [destruct Hin|].
  destruct (parseHeader _) as [hdr|]; [|destruct Hin].
  destruct (negb _); [destruct Hin|].
  rewrite snd_andThen in Hin. cbn [emit fst snd] in Hin.
  destruct (len (rxNibbles s) >=? _)%Z.
  - apply in_app_or in Hin. destruct Hin as [Hin|Hin].
    + simpl in Hin. intuition discriminate.
    + revert Hin. apply finalizePacket_not_incomplete.
      unfold HEADER_LEN in Hge. lia.
  - simpl in Hin. intuition discriminate.
Qed.

Lemma closeWindow_not_incomplete now s c n :
  ~ In (SetRxStatus c (MsgIncomplete n)) (snd (closeWindow now s)).
Proof.
  intros Hin. unfold closeWindow in Hin.
  destruct (len (validSamples (sampleBuf s)) >? 0)%Z.
  - rewrite snd_andThen in Hin. apply in_app_or in Hin.
    destruct Hin as [Hin|Hin].
    + revert Hin. apply liveUpdateRxImage_not_incomplete.
    + simpl in Hin. intuition discriminate.
  - destruct (Z.geb_spec (len (rxNibbles
               (set_silenceCount (silenceCount s + 1) s)))
               (HEADER_LEN * 2)) as [Hge|_].
    + destruct (silenceCount _ >=? 5)%Z; cbn [andb] in Hin.
      * revert Hin. apply finalizePacket_not_incomplete.
        unfold HEADER_LEN in Hge. lia.
      * destruct (_ && _); simpl in Hin; intuition discriminate.
    + rewrite andb_false_r in Hin.
      destruct (_ && _); simpl in Hin; intuition discriminate.
Qed.

End StatusFacts.

Module IdleTheorems.
Import JS Packet Detector Receiver Spec RxSpec RxProps.
Import DetectorFacts ReceiverFacts WindowInvariant ReceiverExtraFacts.
Import StatusFacts ClockFacts.
Local Open Scope Q_scope.

(** X19. No tick ever reports INCOMPLETE: the receiver finalizes only
    when at least 32 nibbles are accumulated, so the status of
    [finalizePacket] for a short accumulator is never reached from the
    sampling interval. *)
Theorem tick_never_reports_incomplete (cfg : Config)
    (a : option Analyser) (now : float) (s : Session) (c : Cls) (n : Z) :
  ~ In (SetRxStatus c (MsgIncomplete n)) (snd (tick cfg a now s)).
Proof.
  intros Hin.
  destruct (detectSymbol cfg a) as [det|] eqn:Hdet.
  2: { unfold tick in Hin. rewrite Hdet in Hin. destruct Hin. }
  rewrite (tick_with_detection _ _ _ _ _ Hdet), snd_andThen in Hin.
  cbn [emit fst snd] in Hin.
  apply in_app_or in Hin. destruct Hin as [Hin|Hin];
    [simpl in Hin; intuition discriminate|].
  destruct (rxState s).
  - unfold tickIdle in Hin.
    destruct (Qgtb (getPreambleMag a) (thresh cfg));
      [|simpl in Hin; intuition discriminate].
    destruct (falsy (preambleAt s));
      cbn [preambleAt set_preambleAt] in Hin;
      destruct (_ <? _)%float; simpl in Hin; intuition discriminate.
  - unfold tickPreamble in Hin.
    destruct (_ <=? _)%float; simpl in Hin; intuition discriminate.
  - unfold tickData in Hin.
    destruct (45000 <? now - rxDataStart s)%float;
      [simpl in Hin; intuition discriminate|].
    destruct (_ <=? _)%float; [|destruct Hin].
    revert Hin. apply closeWindow_not_incomplete.
Qed.

(** X20. The preamble is confirmed only by a sustained tone: with a
    non-negative symbol duration, a tick takes the receiver from IDLE to
    the waiting state only if the preamble magnitude is above the
    threshold, a first-seen time is already recorded, and more than one
    symbol duration has passed since, as the program tests it; and a
    single tick with a spectrum whose preamble magnitude is not above
    the threshold clears the recorded time and leaves everything else
    as it is. *)
Theorem preamble_needs_sustained_tone (cfg : Config)
    (a : option Analyser) (now : float) (s : Session) :
  (0 <=? symDur cfg)%float = true ->
  rxState s = RX_IDLE ->
  (rxState (fst (tick cfg a now s)) = RX_PREAMBLE ->
   thresh cfg < getPreambleMag a
   /\ falsy (preambleAt s) = false
   /\ (symDur cfg * 1 <? now - preambleAt s)%float = true)
  /\ (forall det,
        detectSymbol cfg a = Some det ->
        getPreambleMag a <= thresh cfg ->
        tick cfg a now s = (set_preambleAt 0 s, display cfg a det s)).
Proof.
  intros Hsd Hst. split.
  - destruct (detectSymbol cfg a) as [det|] eqn:Hdet.
    2: { unfold tick. rewrite Hdet. cbn [fst]. congruence. }
    rewrite (tick_with_detection _ _ _ _ _ Hdet), fst_andThen.
    cbn [emit fst]. rewrite Hst. unfold tickIdle.
    destruct (Qgtb (getPreambleMag a) (thresh cfg)) eqn:Hmag;
      [|cbn; congruence].
    apply Qgtb_true in Hmag.
    destruct (falsy (preambleAt s)) eqn:Hz;
      cbn [preambleAt set_preambleAt].
    + rewrite (not_elapsed_at_first_sight _ now Hsd).
      cbn. congruence.
    + destruct (symDur cfg * 1 <? now - preambleAt s)%float eqn:G;
        [|cbn; congruence].
      intros _. split; [exact Hmag|]. split; reflexivity.
  - intros det Hdet Hmag.
    rewrite (tick_with_detection _ _ _ _ _ Hdet), emit_andThen, Hst.
    unfold tickIdle. rewrite (proj2 (Qgtb_false _ _) Hmag).
    cbn [fst snd]. now rewrite app_nil_r.
Qed.

End IdleTheorems.

(* ================================================================== *)
(** ** Further properties of the detector and the vote *)
(* ================================================================== *)

Module DetectorExtraFacts.
Import JS Packet Detector Receiver Spec RxSpec.
Import DetectorFacts VoteFacts ReceiverFacts CodecExtraFacts.
Local Open Scope Q_scope.

Lemma band_sum_bound buf js :
  Forall is_byte buf ->
  forall acc,
    (acc <= fold_left (fun s j => s + idx buf j) js acc
     <= acc + 255 * Z.of_nat (length js))%Z.
Proof.
  intros Hb. induction js as [|j js IH]; intros acc.
  - simpl. lia.
  - cbn [fold_left length].
    pose proof (idx_byte buf j Hb) as Hj. unfold is_byte in Hj.
    specialize (IH (acc + idx buf j)%Z). lia.
Qed.

(** The average over the band is a normalized magnitude. *)
Lemma bandMagnitude_range buf bin :
  Forall is_byte buf -> 0 <= bandMagnitude buf bin <= 1.
Proof.
  intros Hb. unfold bandMagnitude.
  set (lo := Z.max 0 (bin - 5)).
  set (hi := Z.min (Z.of_nat (length buf) - 1) (bin + 5)).
  set (js := map (fun k => Z.to_nat (lo + Z.of_nat k))
                 (seq 0 (Z.to_nat (hi - lo + 1)))).
  pose proof (band_sum_bound buf js Hb 0%Z) as Hs.
  assert (Lj : (Z.of_nat (length js) <= 11)%Z).
  { unfold js. rewrite length_map, length_seq. unfold lo, hi. lia. }
  set (sum := fold_left (fun s j => (s + idx buf j)%Z) js 0%Z) in *.
  assert (Hsum : (0 <= sum <= 2805)%Z) by lia.
  clearbody sum. clear - Hsum.
  change (inject_Z (2 * 5 + 1)) with (inject_Z 11).
  unfold Qle, Qdiv, Qmult, Qinv, inject_Z. simpl. lia.
Qed.

Lemma pickBest_magnitude ms :
  magnitude (pickBest ms) = 0 \/ In (magnitude (pickBest ms)) ms.
Proof.
  destruct (pickBest_spec ms) as [_ [[_ E] | (j & _ & Hj & _)]].
  - now left.
  - right. eapply nth_error_In; eauto.
Qed.

(** A symbol reported with a positive magnitude is a channel index. *)
Lemma pickBest_positive ms :
  0 < magnitude (pickBest ms) -> (0 <= symbol (pickBest ms))%Z.
Proof.
  intros Hpos.
  destruct (pickBest_spec ms) as [_ [[_ E] | (j & Hs & _)]].
  - rewrite E in Hpos. lra.
  - rewrite Hs. lia.
Qed.

Lemma occ_two_values valid v w :
  v <> w -> (occ v valid + occ w valid <= length valid)%nat.
Proof.
  intros Hne. unfold occ. induction valid as [|x valid IH]; simpl; [lia|].
  destruct (Z.eq_dec x v), (Z.eq_dec x w); subst; try congruence; lia.
Qed.

End DetectorExtraFacts.

Module DetectorExtras.
Import JS Packet Detector Receiver Transmitter Spec RxSpec.
Import DetectorFacts VoteFacts ReceiverFacts CodecExtraFacts.
Import DetectorExtraFacts TransmitterFacts.
Local Open Scope Q_scope.

(** X21. On a byte spectrum every magnitude is normalized: the 16
    channel magnitudes, the magnitude of the best channel and the
    preamble magnitude all lie between 0 and 1. *)
Theorem magnitudes_are_normalized (cfg : Config) (an : Analyser)
    (det : Detection) :
  Forall is_byte (freqData an) ->
  detectSymbol cfg (Some an) = Some det ->
  Forall (fun m => 0 <= m <= 1) (mags det)
  /\ 0 <= magnitude det <= 1
  /\ 0 <= getPreambleMag (Some an) <= 1.
Proof.
  intros Hb Hdet. unfold detectSymbol in Hdet. injection Hdet as <-.
  assert (Hm : Forall (fun m => 0 <= m <= 1) (mags_of cfg an)).
  { unfold mags_of. apply Forall_map, Forall_forall.
    intros f _. now apply bandMagnitude_range. }
  split; [exact Hm|]. split; [|now apply bandMagnitude_range].
  destruct (pickBest_magnitude (mags_of cfg an)) as [E|Hin].
  - rewrite E. lra.
  - rewrite Forall_forall in Hm. now apply Hm.
Qed.

Lemma magnitudes_are_normalized_witness :
  0 <= magnitude (pickBest (mags_of Examples.cfg Examples.symbol3Tone)) <= 1.
Proof.
  refine (proj1 (proj2 (magnitudes_are_normalized
            Examples.cfg Examples.symbol3Tone _ _ eq_refl))).
  unfold Examples.symbol3Tone, Examples.toneAt. cbn [freqData].
  repeat (apply Forall_app; split);
    apply Forall_forall; intros x Hx; apply repeat_spec in Hx;
    subst; unfold is_byte; lia.
Defined.

(** X22. With a non-negative threshold the no-symbol marker never
    enters the window: a sample is recorded only for a detection above
    the threshold, and then its symbol is a channel index 0..15; so a
    window of symbol values stays a window of symbol values. *)
Theorem window_holds_symbols (cfg : Config) (a : option Analyser)
    (det : Detection) (s : Session) :
  0 <= thresh cfg ->
  detectSymbol cfg a = Some det ->
  Forall is_nibble (validSamples (sampleBuf s)) ->
  Forall is_nibble (validSamples (sampleBuf (pushSample (thresh cfg) det s))).
Proof.
  intros Hth Hdet Hs. unfold pushSample.
  destruct (Qgtb (magnitude det) (thresh cfg)) eqn:G;
    cbn [sampleBuf set_sampleBuf set_silenceCount];
    rewrite validSamples_app; apply Forall_app; split; try assumption.
  - apply Qgtb_true in G.
    pose proof (detectSymbol_symbol_range _ _ _ Hdet) as R.
    destruct a as [an|]; [|discriminate]. unfold detectSymbol in Hdet.
    injection Hdet as <-.
    repeat constructor; try (apply pickBest_positive; lra). lia.
  - constructor.
Qed.

Lemma window_holds_symbols_witness :
  Forall is_nibble
    (validSamples
       (sampleBuf (pushSample (thresh Examples.cfg)
                     (pickBest (mags_of Examples.cfg Examples.symbol3Tone))
                     Examples.receiving))).
Proof.
  apply (window_holds_symbols Examples.cfg (Some Examples.symbol3Tone)).
  - vm_compute. discriminate.
  - reflexivity.
  - repeat constructor; unfold is_nibble; lia.
Defined.

(** X23. The vote is robust: a symbol value that makes up more than
    half of the valid samples of a window is the value the window
    decodes to, whatever the other samples are. *)
Theorem strict_majority_wins (valid : list Z) (v : Z) :
  Forall (fun x => (-1 <= x <= 15)%Z) valid ->
  is_nibble v ->
  (length valid < 2 * occ v valid)%nat ->
  winnerOf valid = v.
Proof.
  intros Hr Hv Hmaj.
  destruct (winnerOf_majority valid Hr) as (Hw & Hmax & _).
  destruct (Z.eq_dec (winnerOf valid) v) as [E|Hne]; [exact E|].
  pose proof (Hmax v Hv) as Hle.
  pose proof (occ_two_values valid v (winnerOf valid)
                ltac:(congruence)) as Hsum.
  lia.
Qed.

Lemma strict_majority_wins_witness : winnerOf [7; 3; 7; 12; 7]%Z = 7%Z.
Proof.
  apply strict_majority_wins.
  - repeat constructor; lia.
  - unfold is_nibble. lia.
  - vm_compute. lia.
Defined.



End DetectorExtras.

Module TransmitterExtras.
Import JS Packet Detector Receiver Transmitter Spec RxSpec.
Import DetectorFacts ReceiverFacts PacketFacts CodecExtraFacts.
Import TransmitterFacts ClockFacts.
Local Open Scope Q_scope.

(** X25. For symbol durations of at least 100/9 ms (so that a data
    tone lasts 10 ms or more) every scheduled tone has a well-ordered
    gain envelope: the fade-in ends after it starts and not after the
    hold ends, the fade-out ends after the hold, and the oscillator is
    stopped after the fade-out. *)
Theorem tone_envelopes_ordered (cfg : Settings Q) (ct : Q)
    (header payload : list Z) (i : nat) (c : ToneCall Q) :
  (100 # 9) <= symDuration cfg ->
  nth_error (tones (schedule cfg ct header payload)) i = Some c ->
  rampUpFrom (playTone c) < rampUpTo (playTone c)
  /\ rampUpTo (playTone c) <= holdUntil (playTone c)
  /\ holdUntil (playTone c) < rampDownTo (playTone c)
  /\ rampDownTo (playTone c) < oscStop (playTone c).
Proof.
  intros Hsd Hc. cbn [playTone rampUpFrom rampUpTo holdUntil rampDownTo oscStop].
  exact_arith.
  assert (Hs : (1 # 90) <= symDuration cfg / 1000)
    by (apply Qle_shift_div_l; [reflexivity | lra]).
  assert (Hd : (1 # 100) <= toneDuration c).
  { destruct (schedule_tone_cases _ _ _ _ _ _ Hc)
      as [[_ ->] | (k & nib & _ & _ & -> & _)].
    - cbn [toneDuration].
      set (x := symDuration cfg / 1000) in *. lra.
    - set (x := symDuration cfg / 1000) in *. lra. }
  repeat split; lra.
Qed.

Lemma tone_envelopes_ordered_witness :
  rampUpTo (playTone {| toneFreq := PREAMBLE_FREQ;
                        toneStart := 0 + (5 # 100);
                        toneDuration := 120 / 1000 * 4;
                        toneGain := 5 # 10 |})
  <= holdUntil (playTone {| toneFreq := PREAMBLE_FREQ;
                            toneStart := 0 + (5 # 100);
                            toneDuration := 120 / 1000 * 4;
                            toneGain := 5 # 10 |}).
Proof.
  refine (proj1 (proj2
    (tone_envelopes_ordered Scenarios.settingsExact 0
       (buildHeader TYPE_TEXT 2 0 0) [72; 105]%Z 0 _ _ eq_refl))).
  vm_compute. discriminate.
Defined.

(** X26. The progress shown while transmitting.  As the program
    computes it, in doubles: a transmission whose fraction is a number
    is reported done only with the progress at exactly 100.  With the
    start at the double nearest 805.7, the total 2310 and the clock at
    the double nearest 3115.7, the fraction computed is 1 and the
    transmission is reported done.  In the arithmetic without rounding,
    for a positive total duration: the progress never decreases as the
    clock advances, never exceeds 100, is 100 whenever the transmission
    is reported done, and the transmission is reported done once the
    total duration has elapsed since the start. *)
Theorem tx_progress (txStart totalMs : Q) :
  0 < totalMs ->
  (forall n1 n2, n1 <= n2 ->
     txProgress n1 txStart totalMs <= txProgress n2 txStart totalMs)
  /\ (forall now, txProgress now txStart totalMs <= 100)
  /\ (forall now,
        txStart + totalMs <= now -> txDone now txStart totalMs = true)
  /\ (forall now,
        txDone now txStart totalMs = true ->
        txProgress now txStart totalMs == 100)
  /\ (forall now start total : float,
        txDone now start total = true ->
        is_nan (txFrac now start total) = false ->
        txProgress now start total = 100%float)
  /\ txFrac 0x1.8576666666666p+11%float 0x1.92d999999999ap+9%float
            2310%float = 1%float
  /\ txDone 0x1.8576666666666p+11%float 0x1.92d999999999ap+9%float
            2310%float = true.
Proof.
  intros HT.
  assert (Hx : forall now, (now - txStart) / totalMs * totalMs
                           == now - txStart)
    by (intros now; field; lra).
  assert (Hfrac : forall now,
             txFrac now txStart totalMs <= 1
             /\ txFrac now txStart totalMs <= (now - txStart) / totalMs
             /\ (txFrac now txStart totalMs == 1
                 \/ txFrac now txStart totalMs
                    == (now - txStart) / totalMs)).
  { intros now. unfold txFrac. exact_arith.
    destruct (Qle_bool ((now - txStart) / totalMs) 1) eqn:E.
    - apply Qle_bool_iff in E.
      split; [exact E | split; [lra | right; reflexivity]].
    - assert (1 < (now - txStart) / totalMs).
      { apply Qnot_le_lt. intros H. apply Qle_bool_iff in H. congruence. }
      split; [lra | split; [lra | left; reflexivity]]. }
  split; [|split; [|split; [|split; [|split; [|split]]]]].
  - intros n1 n2 Hn. unfold txProgress. exact_arith.
    assert (Hmono : (n1 - txStart) / totalMs <= (n2 - txStart) / totalMs).
    { unfold Qdiv. apply Qmult_le_compat_r; [lra|].
      apply Qinv_le_0_compat. lra. }
    destruct (Hfrac n1) as (A1 & A2 & A3).
    destruct (Hfrac n2) as (B1 & B2 & B3).
    set (f1 := txFrac n1 txStart totalMs) in *.
    set (f2 := txFrac n2 txStart totalMs) in *.
    set (x1 := (n1 - txStart) / totalMs) in *.
    set (x2 := (n2 - txStart) / totalMs) in *.
    destruct B3 as [E|E]; lra.
  - intros now. unfold txProgress. exact_arith.
    destruct (Hfrac now) as (H1 & _). lra.
  - intros now H. unfold txDone. exact_arith.
    rewrite negb_true_iff, Qgtb_false.
    destruct (Hfrac now) as (H1 & H2 & H3).
    specialize (Hx now).
    set (x := (now - txStart) / totalMs) in *.
    assert (1 <= x).
    { apply Qle_shift_div_l; [exact HT | lra]. }
    destruct H3 as [E|E]; rewrite E; lra.
  - intros now Hd. unfold txProgress, txDone in *. exact_arith.
    rewrite negb_true_iff, Qgtb_false in Hd.
    destruct (Hfrac now) as (H1 & _).
    set (f := txFrac now txStart totalMs) in *.
    assert (f == 1) by lra. lra.
  - intros now start total Hd Hn.
    unfold txProgress, txDone, txFrac in *.
    cbn [add sub mul div lit lt min double] in *.
    change (Q2double 1) with 1%float in *.
    change (Q2double 100) with 100%float.
    rewrite negb_true_iff in Hd.
    set (x := ((now - start) / total)%float) in *.
    unfold minDouble in *.
    destruct (is_nan x || is_nan 1)%bool;
      [vm_compute in Hn; discriminate|].
    change (is_zero 1) with false in *. rewrite andb_false_r in *.
    destruct (x <=? 1)%float eqn:Hle.
    + rewrite (one_reached x Hle Hd). reflexivity.
    + reflexivity.
  - vm_compute. reflexivity.
  - vm_compute. reflexivity.
Qed.

Lemma tx_progress_witness :
  txProgress 1000 50 3000 <= txProgress 2000 50 3000.
Proof.
  apply (proj1 (tx_progress 50 3000 ltac:(reflexivity))).
  discriminate.
Defined.

(** X27. Transmitter and receiver agree on where the data starts.  In
    the arithmetic without rounding the transmitter puts four symbol
    durations and 60 ms between the start of the preamble tone and the
    start of the first data tone.  In doubles, with the default
    settings, the two starts stored for the text "Hi" at audio time 0
    are 0.05 and 0.5900000000000001 s, their difference is computed as
    540 ms, and the receiver that first saw the preamble at 1000 ms
    waits until 1540 ms, also 540 ms. *)
Theorem receiver_waits_as_transmitter_schedules :
  (forall (cfg : Settings Q) (ct : Q) (header payload : list Z),
      header ++ payload <> [] ->
      exists c0 c1,
        nth_error (tones (schedule cfg ct header payload)) 0 = Some c0
        /\ nth_error (tones (schedule cfg ct header payload)) 1 = Some c1
        /\ (toneStart c1 - toneStart c0) * 1000
           == 4 * symDuration cfg + 60)
  /\ option_map toneStart (nth_error (tones Scenarios.shortText) 0)
     = Some 0x1.999999999999ap-5%float
  /\ option_map toneStart (nth_error (tones Scenarios.shortText) 1)
     = Some 0x1.2e147ae147ae2p-1%float
  /\ ((0x1.2e147ae147ae2p-1 - 0x1.999999999999ap-5) * 1000)%float
     = 540%float
  /\ rxState (fst (tick Examples.cfg (Some Examples.preambleTone) 1125
                        Examples.idleSeen)) = RX_PREAMBLE
  /\ (preambleEndsAt
        (fst (tick Examples.cfg (Some Examples.preambleTone) 1125
                   Examples.idleSeen))
      - preambleAt
          (fst (tick Examples.cfg (Some Examples.preambleTone) 1125
                     Examples.idleSeen)))%float
     = 540%float.
Proof.
  split; [|repeat split; vm_compute; reflexivity].
  intros cfg ct header payload Hne.
  destruct (nth_error (bytesToNibbles (header ++ payload)) 0)
    as [nib|] eqn:Hnib.
  2: { destruct (header ++ payload) as [|b rest]; [congruence|].
       rewrite bytesToNibbles_cons in Hnib. discriminate. }
  destruct (schedule_shape cfg ct header payload) as (_ & Hpre & Hdata & _).
  do 2 eexists. split; [exact Hpre|]. split; [exact (Hdata _ _ Hnib)|].
  cbn [toneStart]. rewrite stepped_exact, dataClock_exact.
  exact_arith. change (inject_Z (Z.of_nat 0)) with 0. field.
Qed.

End TransmitterExtras.

(* ================================================================== *)
(** ** The properties at concrete inputs *)
(* ================================================================== *)

Module Instances.
Import JS Packet Detector Receiver Transmitter Spec RxSpec RxProps.
Import TransmitterTheorems EndToEndTheorems SilenceTheorems IdleTheorems.
Import TransmitterExtras.
Local Open Scope Q_scope.

Lemma scheduled_tones_do_not_overlap_witness :
  rampDownTo
    (playTone (nth 3 (tones Scenarios.shortTextExact) Scenarios.noTone))
  < rampUpFrom
      (playTone (nth 4 (tones Scenarios.shortTextExact) Scenarios.noTone))
  /\ oscStop
       (playTone (nth 3 (tones Scenarios.shortTextExact) Scenarios.noTone))
     <= rampUpFrom
          (playTone (nth 4 (tones Scenarios.shortTextExact)
                         Scenarios.noTone)).
Proof.
  destruct (scheduled_tones_do_not_overlap Scenarios.settingsExact 0
              (buildHeader TYPE_TEXT 2 0 0) [72; 105]%Z 3 _ _
              ltac:(vm_compute; discriminate) eq_refl eq_refl)
    as (Hgain & Hosc & _).
  split; [exact Hgain|].
  apply Hosc. vm_compute. discriminate.
Defined.

Lemma image_end_to_end_witness :
  exists tr,
    transmit Scenarios.settings
      {| txMode := ModeImage; txInput := [];
         pendingJpegBytes := Some [0xff; 0xd8; 0xff]%Z;
         pendingImgW := 48; pendingImgH := 48 |} 0%float
    = TxScheduled tr
    /\ len (nibbles tr) = 38%Z.
Proof.
  destruct (image_end_to_end Scenarios.settings 0%float
              [0xff; 0xd8; 0xff]%Z [] 48 48)
    as (tr & Htr & Hlen & _).
  - repeat (constructor; [unfold is_byte; lia|]). constructor.
  - vm_compute. reflexivity.
  - lia.
  - lia.
  - exists tr. split; [exact Htr | exact Hlen].
Defined.




Lemma preamble_needs_sustained_tone_witness :
  thresh Examples.cfg < getPreambleMag (Some Examples.preambleTone)
  /\ falsy (preambleAt Examples.idleSeen) = false
  /\ (symDur Examples.cfg * 1 <? 1125 - preambleAt Examples.idleSeen)%float
     = true.
Proof.
  refine (proj1 (preamble_needs_sustained_tone
                   Examples.cfg (Some Examples.preambleTone) 1125
                   Examples.idleSeen _ eq_refl) _).
  - vm_compute. reflexivity.
  - vm_compute. reflexivity.
Defined.

End Instances.
